(** * IT magazine advert workflow: a shallow embedding of [it_magazine.py]

    The Python module keeps three kinds of staff objects (marketing, editor,
    processing centre), [Advert] objects that are shared by reference between
    the stores of those staff objects, six command classes and a FIFO
    [CommandInvoker].  The embedding keeps the sharing explicit: every object
    lives in a store indexed by an address, stores and commands hold
    addresses, and a method is a function in a small state-and-exception
    monad over the whole [World]. *)

From Stdlib Require Import Ascii.
From stdpp Require Import gmap strings list pretty.

Open Scope string_scope.

(** ** Python values used by the module *)

(** A Python [str] is a [string] here: a sequence of characters with code
    points 0 to 255, one [ascii] each.  Among these characters the decimal
    digits are exactly the ten characters 0 to 9. *)

(** Object references.  Each class has its own address space. *)
Abbreviation addr := positive (only parsing).

(** The only exception the module raises itself is [ValueError(msg)]. *)
Inductive exn :=
| ValueError (msg : string).

(** [staff_id] is annotated [int] but checked with [isinstance] at run time;
    the test-suite also passes a [str]. *)
Inductive PyArg :=
| PyInt (z : Z)
| PyStr (s : string).

Definition isinstance_int (v : PyArg) : bool :=
  match v with PyInt _ => true | PyStr _ => false end.

(** Python's [str(v)]: decimal notation with a leading minus sign for a
    negative [int], the string itself for a [str]. *)
Definition str (v : PyArg) : string :=
  match v with PyInt z => pretty z | PyStr s => s end.

Definition len (s : string) : nat := String.length s.

(** Truthiness of a Python [str]: every string but the empty one. *)
Definition truthy (s : string) : bool :=
  match s with EmptyString => false | String _ _ => true end.

(** Truthiness of an optional keyword argument: [None] and the empty string
    are both falsy. *)
Definition truthy_opt (o : option string) : bool :=
  match o with None => false | Some s => truthy s end.

(** [x in [a, b, c]] on strings. *)
Definition str_in (x : string) (l : list string) : bool :=
  bool_decide (x ∈ l).

(** ** Objects *)

(** class Advert *)
Record Advert := mkAdvert {
  advert_id : string;
  client_name : string;
  size : string;
  placement : string;
  publication_date : string;
  status : string
}.

(** [Advert.__init__] with its default [status="Pending"]. *)
Definition Advert_init (advert_id client_name size placement publication_date : string)
    (status : option string) : Advert :=
  mkAdvert advert_id client_name size placement publication_date
           (default "Pending" status).

Definition set_size (v : string) (a : Advert) : Advert :=
  mkAdvert (advert_id a) (client_name a) v (placement a) (publication_date a) (status a).
Definition set_placement (v : string) (a : Advert) : Advert :=
  mkAdvert (advert_id a) (client_name a) (size a) v (publication_date a) (status a).
Definition set_publication_date (v : string) (a : Advert) : Advert :=
  mkAdvert (advert_id a) (client_name a) (size a) (placement a) v (status a).
Definition set_status (v : string) (a : Advert) : Advert :=
  mkAdvert (advert_id a) (client_name a) (size a) (placement a) (publication_date a) v.

(** class ITMagazineStaff: the instance attributes. *)
Record ITMagazineStaff := mkStaff {
  staff_id : Z;
  salary : Z;
  dept : string
}.

(** class MarketingDeptStaff(ITMagazineStaff) *)
Record MarketingDeptStaff := mkMarketing {
  marketing_base : ITMagazineStaff;
  adverts : gmap string addr
}.

(** class Editor(ITMagazineStaff) *)
Record Editor := mkEditor {
  editor_base : ITMagazineStaff;
  magazine_issues : gmap string (list addr)
}.

(** class ProcessingCentreStaff(ITMagazineStaff) *)
Record ProcessingCentreStaff := mkProcessing {
  processing_base : ITMagazineStaff;
  stored_adverts : list addr
}.

(** ** The world *)

(** Everything a method can read or write: the class-level registry
    [ITMagazineStaff._used_staff_ids], the objects of each class, and the
    lines written by [print]. *)
Record World := mkWorld {
  used_staff_ids : gset Z;
  advert_objs : gmap addr Advert;
  marketing_objs : gmap addr MarketingDeptStaff;
  editor_objs : gmap addr Editor;
  processing_objs : gmap addr ProcessingCentreStaff;
  stdout : list string
}.

Definition empty_world : World := mkWorld ∅ ∅ ∅ ∅ ∅ [].

Definition with_used_staff_ids (f : gset Z → gset Z) (w : World) : World :=
  mkWorld (f (used_staff_ids w)) (advert_objs w) (marketing_objs w)
          (editor_objs w) (processing_objs w) (stdout w).
Definition with_advert_objs (f : gmap addr Advert → gmap addr Advert) (w : World) : World :=
  mkWorld (used_staff_ids w) (f (advert_objs w)) (marketing_objs w)
          (editor_objs w) (processing_objs w) (stdout w).
Definition with_marketing_objs
    (f : gmap addr MarketingDeptStaff → gmap addr MarketingDeptStaff) (w : World) : World :=
  mkWorld (used_staff_ids w) (advert_objs w) (f (marketing_objs w))
          (editor_objs w) (processing_objs w) (stdout w).
Definition with_editor_objs (f : gmap addr Editor → gmap addr Editor) (w : World) : World :=
  mkWorld (used_staff_ids w) (advert_objs w) (marketing_objs w)
          (f (editor_objs w)) (processing_objs w) (stdout w).
Definition with_processing_objs
    (f : gmap addr ProcessingCentreStaff → gmap addr ProcessingCentreStaff) (w : World) : World :=
  mkWorld (used_staff_ids w) (advert_objs w) (marketing_objs w)
          (editor_objs w) (f (processing_objs w)) (stdout w).
Definition with_stdout (f : list string → list string) (w : World) : World :=
  mkWorld (used_staff_ids w) (advert_objs w) (marketing_objs w)
          (editor_objs w) (processing_objs w) (f (stdout w)).

(** ** State and exception monad *)

(** A call either returns a value or raises; in both cases the mutations made
    so far stay in the world. *)
Inductive Result (A : Type) :=
| Ok (a : A)
| Raise (e : exn).
Arguments Ok {A} a.
Arguments Raise {A} e.

(** [None] is reserved for a reference to an object that does not exist,
    which a Python program cannot produce. *)
Definition M (A : Type) : Type := World → option (Result A * World).

Global Instance M_ret : MRet M := λ A (a : A) w, Some (Ok a, w).

Definition raise {A} (e : exn) : M A := λ w, Some (Raise e, w).

Global Instance M_bind : MBind M := λ A B (k : A → M B) (m : M A) w,
  match m w with
  | Some (Ok a, w') => k a w'
  | Some (Raise e, w') => Some (Raise e, w')
  | None => None
  end.

Definition print (line : string) : M unit := λ w,
  Some (Ok (), with_stdout (λ out, (out ++ [line])%list) w).

Definition get_advert (a : addr) : M Advert := λ w,
  (λ v, (Ok v, w)) <$> advert_objs w !! a.

(** An attribute assignment [a.field = v] on an existing advert. *)
Definition modify_advert (a : addr) (f : Advert → Advert) : M unit := λ w,
  (λ v, (Ok (), with_advert_objs (<[a := f v]>) w)) <$> advert_objs w !! a.

Definition new_advert (v : Advert) : M addr := λ w,
  let a := fresh (dom (advert_objs w)) in
  Some (Ok a, with_advert_objs (<[a := v]>) w).

Definition get_marketing (a : addr) : M MarketingDeptStaff := λ w,
  (λ v, (Ok v, w)) <$> marketing_objs w !! a.

Definition modify_marketing (a : addr) (f : MarketingDeptStaff → MarketingDeptStaff)
    : M unit := λ w,
  (λ v, (Ok (), with_marketing_objs (<[a := f v]>) w)) <$> marketing_objs w !! a.

Definition get_editor (a : addr) : M Editor := λ w,
  (λ v, (Ok v, w)) <$> editor_objs w !! a.

Definition modify_editor (a : addr) (f : Editor → Editor) : M unit := λ w,
  (λ v, (Ok (), with_editor_objs (<[a := f v]>) w)) <$> editor_objs w !! a.

Definition get_processing (a : addr) : M ProcessingCentreStaff := λ w,
  (λ v, (Ok v, w)) <$> processing_objs w !! a.

Definition modify_processing (a : addr)
    (f : ProcessingCentreStaff → ProcessingCentreStaff) : M unit := λ w,
  (λ v, (Ok (), with_processing_objs (<[a := f v]>) w)) <$> processing_objs w !! a.

Definition new_marketing (v : MarketingDeptStaff) : M addr := λ w,
  let a := fresh (dom (marketing_objs w)) in
  Some (Ok a, with_marketing_objs (<[a := v]>) w).

Definition new_editor (v : Editor) : M addr := λ w,
  let a := fresh (dom (editor_objs w)) in
  Some (Ok a, with_editor_objs (<[a := v]>) w).

Definition new_processing (v : ProcessingCentreStaff) : M addr := λ w,
  let a := fresh (dom (processing_objs w)) in
  Some (Ok a, with_processing_objs (<[a := v]>) w).

(** ** class ITMagazineStaff *)

Definition valid_departments : list string :=
  ["Marketing"; "Editing"; "Processing Centre"].

Definition in_used_staff_ids (z : Z) : M bool := λ w,
  Some (Ok (bool_decide (z ∈ used_staff_ids w)), w).

Definition add_used_staff_id (z : Z) : M unit := λ w,
  Some (Ok (), with_used_staff_ids (λ ids, {[z]} ∪ ids) w).

(** [ITMagazineStaff.__init__]: the four checks in the order of the source,
    then the attribute assignments and the registration.  The first check is
    [not isinstance(staff_id, int) or len(str(staff_id)) != 6]. *)
Definition ITMagazineStaff_init (staff_id : PyArg) (salary : Z) (dept : string)
    : M ITMagazineStaff :=
  match staff_id with
  | PyStr _ => raise (ValueError "Staff ID must be a 6-digit integer.")
  | PyInt z =>
    if negb (len (str (PyInt z)) =? 6)%nat then
      raise (ValueError "Staff ID must be a 6-digit integer.")
    else if negb ((10000 <=? salary)%Z && (salary <=? 1000000)%Z) then
      raise (ValueError "Salary must be between 10,000 and 1,000,000.")
    else if negb (str_in dept valid_departments) then
      raise (ValueError
        "Department must be one of ['Marketing', 'Editing', 'Processing Centre'].")
    else
      used ← in_used_staff_ids z;
      if used : bool then
        raise (ValueError ("Staff ID " +:+ pretty z +:+ " is already in use."))
      else
        add_used_staff_id z;;
        mret (mkStaff z salary dept)
  end.

(** [ITMagazineStaff.remove_staff_id]: [set.discard]. *)
Definition remove_staff_id (z : Z) : M unit := λ w,
  Some (Ok (), with_used_staff_ids (λ ids, ids ∖ {[z]}) w).

(** [ITMagazineStaff.__del__] on an object whose [staff_id] attribute is set
    ([Some z]) or was never assigned because [__init__] raised ([None]: the
    [AttributeError] is caught and nothing happens). *)
Definition ITMagazineStaff_del (staff_id_attr : option Z) : M unit :=
  match staff_id_attr with
  | Some z => remove_staff_id z
  | None => mret ()
  end.

(** The constructors of the three subclasses: [super().__init__], then the
    store attribute, then the new object gets its address. *)
Definition MarketingDeptStaff_init (staff_id : PyArg) (salary : Z) (dept : string)
    : M addr :=
  base ← ITMagazineStaff_init staff_id salary dept;
  new_marketing (mkMarketing base ∅).

Definition Editor_init (staff_id : PyArg) (salary : Z) (dept : string) : M addr :=
  base ← ITMagazineStaff_init staff_id salary dept;
  new_editor (mkEditor base ∅).

Definition ProcessingCentreStaff_init (staff_id : PyArg) (salary : Z) (dept : string)
    : M addr :=
  base ← ITMagazineStaff_init staff_id salary dept;
  new_processing (mkProcessing base []).

(** ** [datetime.strptime(date_string, "%Y-%m-%d")]

    The standard library compiles the format to the regular expression
    [(\d\d\d\d)-(1[0-2]|0[1-9]|[1-9])-(3[01]|[12]\d|0[1-9]|[1-9]| [1-9])],
    matches it at the start of the string, refuses unconverted trailing
    data, and builds a date, which refuses year 0 and a day the month does
    not have.  Among the characters of the strings here (code points 0 to
    255) the digit class matches the characters 0 to 9 and no other. *)
Module Strptime.

Definition digit (c : ascii) : option Z :=
  let n := Z.of_N (N_of_ascii c) in
  if bool_decide (48 ≤ n ≤ 57)%Z then Some (n - 48)%Z else None.

(** One character of the class [[lo-hi]], with its value. *)
Definition cls (lo hi : Z) (s : string) : option (Z * string) :=
  match s with
  | String c rest =>
    v ← digit c;
    if bool_decide (lo ≤ v ≤ hi)%Z then Some (v, rest) else None
  | EmptyString => None
  end.

(** One literal character. *)
Definition lit (c : ascii) (s : string) : option string :=
  match s with
  | String c' rest => if bool_decide (c' = c) then Some rest else None
  | EmptyString => None
  end.

(** The first alternative that matches wins. *)
Fixpoint first_of {A} (alts : list (option A)) : option A :=
  match alts with
  | [] => None
  | Some a :: _ => Some a
  | None :: rest => first_of rest
  end.

(** [(?P<Y>\d\d\d\d)] *)
Definition year (s : string) : option (Z * string) :=
  '(a, s) ← cls 0 9 s; '(b, s) ← cls 0 9 s;
  '(c, s) ← cls 0 9 s; '(d, s) ← cls 0 9 s;
  Some (1000 * a + 100 * b + 10 * c + d, s)%Z.

(** [(?P<d>3[0-1]|[1-2]\d|0[1-9]|[1-9]| [1-9])]: nothing follows the group
    in the pattern, so the first alternative that matches is kept. *)
Definition day (s : string) : option (Z * string) :=
  first_of [
    (s ← lit "3"%char s; '(v, s) ← cls 0 1 s; Some (30 + v, s)%Z);
    ('(u, s) ← cls 1 2 s; '(v, s) ← cls 0 9 s; Some (10 * u + v, s)%Z);
    (s ← lit "0"%char s; cls 1 9 s);
    cls 1 9 s;
    (s ← lit " "%char s; cls 1 9 s)
  ].

(** [(?P<m>1[0-2]|0[1-9]|[1-9])] followed by the rest of the pattern [k]:
    the matcher backtracks into the next alternative when the rest fails. *)
Definition month_then {A} (k : string → option A) (s : string) : option (Z * A) :=
  first_of [
    (s ← lit "1"%char s; '(v, s) ← cls 0 2 s; r ← k s; Some (10 + v, r)%Z);
    (s ← lit "0"%char s; '(v, s) ← cls 1 9 s; r ← k s; Some (v, r));
    ('(v, s) ← cls 1 9 s; r ← k s; Some (v, r))
  ].

Definition is_leap (y : Z) : bool :=
  bool_decide (y `mod` 4 = 0 ∧ (y `mod` 100 ≠ 0 ∨ y `mod` 400 = 0))%Z.

Definition days_in_month (y m : Z) : Z :=
  if bool_decide (m = 2)%Z then (if is_leap y then 29 else 28)%Z
  else if bool_decide (m ∈ [4; 6; 9; 11]%Z) then 30%Z
  else 31%Z.

(** The parsed date, or [None] where [strptime] raises [ValueError]. *)
Definition strptime_Ymd (date_string : string) : option (Z * Z * Z) :=
  '(y, s) ← year date_string;
  s ← lit "-"%char s;
  '(m, (d, s)) ← month_then (λ s, s ← lit "-"%char s; day s) s;
  if negb (truthy s) && bool_decide (1 ≤ y)%Z
     && bool_decide (1 ≤ d ≤ days_in_month y m)%Z
  then Some (y, m, d) else None.

End Strptime.

(** ** class MarketingDeptStaff *)

(** [_is_valid_date]: [True] when [strptime] returns, [False] when it raises
    [ValueError]. *)
Definition _is_valid_date (date_string : string) : bool :=
  bool_decide (is_Some (Strptime.strptime_Ymd date_string)).

(** ** class Advert: methods *)

(** A keyword argument is applied only when it is truthy ([if size: ...]). *)
Definition when_truthy (arg : option string) (k : string → M unit) : M unit :=
  match arg with
  | Some v => if truthy v then k v else mret ()
  | None => mret ()
  end.

(** [Advert.update_details] *)
Definition Advert_update_details (self : addr)
    (size placement publication_date : option string) : M unit :=
  when_truthy size (λ v, modify_advert self (set_size v));;
  when_truthy placement (λ v, modify_advert self (set_placement v));;
  when_truthy publication_date (λ v, modify_advert self (set_publication_date v)).

(** [Advert.cancel_advert] *)
Definition Advert_cancel_advert (self : addr) : M unit :=
  modify_advert self (set_status "Cancelled").

(** ** class MarketingDeptStaff: methods *)

Definition valid_sizes : list string := ["Full Page"; "Half Page"; "Quarter Page"].

Definition create_advert (self : addr)
    (advert_id client_name size placement publication_date : string) : M addr :=
  if negb (truthy advert_id) then
    raise (ValueError "Advert ID cannot be empty.")
  else if negb (truthy client_name) then
    raise (ValueError "Client name cannot be empty.")
  else if negb (str_in size valid_sizes) then
    raise (ValueError ("Invalid size: " +:+ size
      +:+ ". Must be one of ['Full Page', 'Half Page', 'Quarter Page']."))
  else if negb (truthy placement) then
    raise (ValueError "Placement cannot be empty.")
  else if negb (_is_valid_date publication_date) then
    raise (ValueError ("Invalid publication date: " +:+ publication_date
      +:+ ". Must be in YYYY-MM-DD format."))
  else
    me ← get_marketing self;
    if bool_decide (is_Some (adverts me !! advert_id)) then
      raise (ValueError "Advert ID already exists.")
    else
      advert ← new_advert
        (Advert_init advert_id client_name size placement publication_date None);
      modify_marketing self
        (λ m, mkMarketing (marketing_base m) (<[advert_id := advert]> (adverts m)));;
      mret advert.

Definition update_advert (self : addr) (advert_id : string)
    (size placement publication_date : option string) : M string :=
  me ← get_marketing self;
  match adverts me !! advert_id with
  | None => raise (ValueError "Advert ID does not exist.")
  | Some advert =>
    Advert_update_details advert size placement publication_date;;
    mret ("Advert " +:+ advert_id +:+ " updated successfully.")
  end.

Definition cancel_advert (self : addr) (advert_id : string) : M string :=
  me ← get_marketing self;
  match adverts me !! advert_id with
  | None => raise (ValueError "Advert ID does not exist.")
  | Some advert =>
    Advert_cancel_advert advert;;
    mret ("Advert " +:+ advert_id +:+ " cancelled successfully.")
  end.

(** ** class Editor: methods *)

(** [next((ad for ad in issue if ad.advert_id == id), None)]: the first
    advert of the issue with that id. *)
Fixpoint find_by_id (objs : gmap addr Advert) (id : string) (issue : list addr)
    : option (option addr) :=
  match issue with
  | [] => Some None
  | ad :: rest =>
    a ← objs !! ad;
    if bool_decide (advert_id a = id) then Some (Some ad)
    else find_by_id objs id rest
  end.

Definition next_by_id (id : string) (issue : list addr) : M (option addr) := λ w,
  (λ r, (Ok r, w)) <$> find_by_id (advert_objs w) id issue.

(** [[ad for ad in issue if ad.advert_id != id]] *)
Fixpoint filter_out_id (objs : gmap addr Advert) (id : string) (issue : list addr)
    : option (list addr) :=
  match issue with
  | [] => Some []
  | ad :: rest =>
    a ← objs !! ad;
    kept ← filter_out_id objs id rest;
    Some (if bool_decide (advert_id a ≠ id) then ad :: kept else kept)
  end.

Definition without_id (id : string) (issue : list addr) : M (list addr) := λ w,
  (λ r, (Ok r, w)) <$> filter_out_id (advert_objs w) id issue.

(** [self.magazine_issues[issue_date]] once the key is known to exist. *)
Definition issue_of (ed : Editor) (issue_date : string) : list addr :=
  default [] (magazine_issues ed !! issue_date).

Definition set_issue (issue_date : string) (issue : list addr) (ed : Editor) : Editor :=
  mkEditor (editor_base ed) (<[issue_date := issue]> (magazine_issues ed)).

Definition update_advert_in_issue (self advert : addr) (issue_date : string) : M unit :=
  adv ← get_advert advert;
  if bool_decide (status adv = "Cancelled") then
    raise (ValueError "Cannot add or update a cancelled advert in the magazine.")
  else
    ed ← get_editor self;
    (if bool_decide (is_Some (magazine_issues ed !! issue_date)) then mret ()
     else modify_editor self (set_issue issue_date []));;
    ed ← get_editor self;
    existing_advert ← next_by_id (advert_id adv) (issue_of ed issue_date);
    match existing_advert with
    | Some existing =>
      Advert_update_details existing
        (Some (size adv)) (Some (placement adv)) (Some (publication_date adv));;
      print ("Advert " +:+ advert_id adv +:+ " updated in issue " +:+ issue_date
             +:+ " by Editor " +:+ pretty (staff_id (editor_base ed)) +:+ ".")
    | None =>
      modify_editor self
        (λ e, set_issue issue_date (issue_of e issue_date ++ [advert])%list e);;
      modify_advert advert (set_status "Approved");;
      print ("Advert " +:+ advert_id adv +:+ " added to issue " +:+ issue_date
             +:+ " by Editor " +:+ pretty (staff_id (editor_base ed)) +:+ ".")
    end.

Definition remove_advert_from_issue (self : addr) (advert_id issue_date : string)
    : M unit :=
  ed ← get_editor self;
  match magazine_issues ed !! issue_date with
  | None => raise (ValueError "Issue date does not exist.")
  | Some issue =>
    kept ← without_id advert_id issue;
    modify_editor self (set_issue issue_date kept)
  end.

(** ** class ProcessingCentreStaff: methods *)

Definition store_advert (self advert : addr) : M unit :=
  adv ← get_advert advert;
  if bool_decide (status adv ≠ "Approved") then
    raise (ValueError "Only approved adverts can be stored.")
  else
    modify_processing self
      (λ p, mkProcessing (processing_base p) (stored_adverts p ++ [advert])%list);;
    print ("Advert " +:+ advert_id adv +:+ " stored successfully.").

(** ** Commands *)

(** The six [Command] subclasses.  A command holds references to its
    receiver and to the advert it was built around, never copies. *)
Inductive Command :=
| CreateAdvertCommand (marketing_dept : addr)
    (advert_id client_name size placement publication_date : string)
| UpdateAdvertCommand (marketing_dept : addr) (advert_id : string)
    (size placement publication_date : option string)
| CancelAdvertCommand (marketing_dept : addr) (advert_id : string)
| UpdateAdvertInIssueCommand (editor advert : addr) (issue_date : string)
| RemoveAdvertFromIssueCommand (editor : addr) (advert_id issue_date : string)
| StoreAdvertCommand (processing_centre advert : addr).

(** What [execute] returns: an [Advert] object or a message. *)
Inductive PyResult :=
| RAdvert (a : addr)
| RStr (s : string).

(** [Command.execute], one case per subclass. *)
Definition execute (command : Command) : M PyResult :=
  match command with
  | CreateAdvertCommand marketing_dept advert_id client_name size placement
                        publication_date =>
    advert ← create_advert marketing_dept advert_id client_name size placement
                           publication_date;
    mret (RAdvert advert)
  | UpdateAdvertCommand marketing_dept advert_id size placement publication_date =>
    msg ← update_advert marketing_dept advert_id size placement publication_date;
    mret (RStr msg)
  | CancelAdvertCommand marketing_dept advert_id =>
    msg ← cancel_advert marketing_dept advert_id;
    mret (RStr msg)
  | UpdateAdvertInIssueCommand editor advert issue_date =>
    update_advert_in_issue editor advert issue_date;;
    adv ← get_advert advert;
    mret (RStr ("Advert " +:+ advert_id adv +:+ " updated or added to issue "
                +:+ issue_date +:+ "."))
  | RemoveAdvertFromIssueCommand editor advert_id issue_date =>
    remove_advert_from_issue editor advert_id issue_date;;
    mret (RStr ("Advert " +:+ advert_id +:+ " removed from issue "
                +:+ issue_date +:+ "."))
  | StoreAdvertCommand processing_centre advert =>
    store_advert processing_centre advert;;
    adv ← get_advert advert;
    mret (RStr ("Advert " +:+ advert_id adv +:+ " stored successfully."))
  end.

(** ** class CommandInvoker *)

Record CommandInvoker := mkInvoker {
  command_queue : list Command
}.

Definition CommandInvoker_init : CommandInvoker := mkInvoker [].

Definition add_command (self : CommandInvoker) (command : Command) : CommandInvoker :=
  mkInvoker (command_queue self ++ [command])%list.

Definition clear_command_queue (self : CommandInvoker) : CommandInvoker :=
  mkInvoker [].

(** The [while self.command_queue:] loop: pop the head, execute it, append
    its result.  A raise leaves the loop with the head already popped; the
    local [results] list is not part of what the caller gets then. *)
Fixpoint run_queue (queue : list Command) (results : list PyResult) (w : World)
    : option (Result (list PyResult) * CommandInvoker * World) :=
  match queue with
  | [] => Some (Ok results, mkInvoker [], w)
  | command :: queue' =>
    match execute command w with
    | Some (Ok r, w') => run_queue queue' (results ++ [r])%list w'
    | Some (Raise e, w') => Some (Raise e, mkInvoker queue', w')
    | None => None
    end
  end.

Definition execute_commands (self : CommandInvoker) (w : World)
    : option (Result (list PyResult) * CommandInvoker * World) :=
  let w :=
    if (length (command_queue self) =? 0)%nat
    then with_stdout (λ out, (out ++ ["No commands to execute"])%list) w
    else w in
  run_queue (command_queue self) [] w.

(** ** Vocabulary of the statements *)

Definition cancelled_msg : exn :=
  ValueError "Cannot add or update a cancelled advert in the magazine.".

(** What a truthy keyword argument does to a field, and a falsy one does not. *)
Definition merged (arg : option string) (old : string) : string :=
  match arg with
  | Some v => if truthy v then v else old
  | None => old
  end.

(** The advert after [update_details(size, placement, publication_date)]. *)
Definition update_fields (size_arg placement_arg date_arg : option string)
    (a : Advert) : Advert :=
  mkAdvert (advert_id a) (client_name a)
           (merged size_arg (size a))
           (merged placement_arg (placement a))
           (merged date_arg (publication_date a))
           (status a).

(** How many adverts of an issue carry a given id. *)
Definition count_id (objs : gmap addr Advert) (id : string) (issue : list addr) : nat :=
  length (filter (λ ad, advert_id <$> objs !! ad = Some id) issue).

(** No advert of the issue carries the id; every entry is a live object. *)
Definition id_absent (objs : gmap addr Advert) (id : string) (issue : list addr) : Prop :=
  Forall (λ ad, ∃ a, objs !! ad = Some a ∧ advert_id a ≠ id) issue.

Definition added_msg (adv : Advert) (issue_date : string) (ed : Editor) : string :=
  "Advert " +:+ advert_id adv +:+ " added to issue " +:+ issue_date
  +:+ " by Editor " +:+ pretty (staff_id (editor_base ed)) +:+ ".".

Definition updated_msg (adv : Advert) (issue_date : string) (ed : Editor) : string :=
  "Advert " +:+ advert_id adv +:+ " updated in issue " +:+ issue_date
  +:+ " by Editor " +:+ pretty (staff_id (editor_base ed)) +:+ ".".

(** The world after the append path. *)
Definition appended (self advert : addr) (issue_date : string) (adv : Advert)
    (ed : Editor) (w : World) : World :=
  with_stdout (λ out, out ++ [added_msg adv issue_date ed])%list
    (with_advert_objs (<[advert := set_status "Approved" adv]>)
      (with_editor_objs
        (<[self := set_issue issue_date (issue_of ed issue_date ++ [advert])%list ed]>)
        w)).

(** The world after the merge path. *)
Definition merged_into (existing : addr) (issue_date : string) (adv exa : Advert)
    (ed : Editor) (w : World) : World :=
  with_stdout (λ out, out ++ [updated_msg adv issue_date ed])%list
    (with_advert_objs
      (<[existing := update_fields (Some (size adv)) (Some (placement adv))
                                   (Some (publication_date adv)) exa]>)
      w).

(** The conditions under which [create_advert] refuses its arguments. *)
Definition create_rejects (me : MarketingDeptStaff)
    (advert_id client_name size placement publication_date : string) : Prop :=
  advert_id = EmptyString
  ∨ client_name = EmptyString
  ∨ size ∉ valid_sizes
  ∨ placement = EmptyString
  ∨ _is_valid_date publication_date = false
  ∨ is_Some (adverts me !! advert_id).

(** The world after a successful [create_advert] that got address [a]. *)
Definition created (self a : addr) (me : MarketingDeptStaff)
    (advert_id client_name size placement publication_date : string) (w : World) : World :=
  with_marketing_objs
    (<[self := mkMarketing (marketing_base me) (<[advert_id := a]> (adverts me))]>)
    (with_advert_objs
      (<[a := mkAdvert advert_id client_name size placement publication_date "Pending"]>)
      w).

Definition not_found : exn := ValueError "Advert ID does not exist.".

Definition updated_ok (advert_id : string) : string :=
  "Advert " +:+ advert_id +:+ " updated successfully.".

Definition cancelled_ok (advert_id : string) : string :=
  "Advert " +:+ advert_id +:+ " cancelled successfully.".

(** A computation that never raises. *)
Definition no_raise {A} (m : M A) : Prop :=
  ∀ w e w', m w ≠ Some (Raise e, w').

(** A computation that leaves the world alone whenever it raises. *)
Definition raise_unchanged {A} (m : M A) : Prop :=
  ∀ w e w', m w = Some (Raise e, w') → w' = w.

(** The commands of a list run one after the other, first to last, each in
    the world the previous one left, and every one returns: [rs] are their
    results in that order and [w'] is the world after the last. *)
Inductive runs_ok : World → list Command → list PyResult → World → Prop :=
| runs_ok_nil (w : World) : runs_ok w [] [] w
| runs_ok_cons (w w1 w2 : World) (c : Command) (r : PyResult)
               (cs : list Command) (rs : list PyResult) :
    execute c w = Some (Ok r, w1) →
    runs_ok w1 cs rs w2 →
    runs_ok w (c :: cs) (r :: rs) w2.

(** The results the caller of [execute_commands] holds afterwards: the
    returned list, and nothing when the call raised. *)
Definition returned_results
    (out : option (Result (list PyResult) * CommandInvoker * World))
    : option (list PyResult) :=
  match out with
  | Some (Ok rs, _, _) => Some rs
  | _ => None
  end.

(** An invoker on which the commands were enqueued one by one. *)
Definition enqueue_all (cmds : list Command) : CommandInvoker :=
  foldl add_command CommandInvoker_init cmds.

Definition nothing_to_run (w : World) : World :=
  with_stdout (λ out, out ++ ["No commands to execute"])%list w.

(** What [ITMagazineStaff.__init__] checks on an [int] id. *)
Definition staff_accepted (w : World) (z salary : Z) (dept : string) : Prop :=
  len (str (PyInt z)) = 6
  ∧ (10000 ≤ salary ≤ 1000000)%Z
  ∧ dept ∈ valid_departments
  ∧ z ∉ used_staff_ids w.

(** The world after a successful registration of [z]. *)
Definition registered (z : Z) (w : World) : World :=
  with_used_staff_ids (λ ids, {[z]} ∪ ids) w.

(** *** Example objects *)

Definition AD001 (status : string) : Advert :=
  mkAdvert "AD001" "Client A" "Full Page" "Back Cover" "2025-01-15" status.

(** One member of staff of each kind; the marketing store holds the advert
    "AD001" with the given status and the editor's issue "2025-03-01" holds
    the given references. *)
Definition example_world (status : string) (issue : list addr) : World :=
  mkWorld {[100000%Z; 200000%Z; 300000%Z]}
          {[1%positive := AD001 status]}
          {[1%positive := mkMarketing (mkStaff 100000 50000 "Marketing")
                                      {["AD001" := 1%positive]}]}
          {[1%positive := mkEditor (mkStaff 200000 60000 "Editing")
                                   {["2025-03-01" := issue]}]}
          {[1%positive := mkProcessing (mkStaff 300000 55000 "Processing Centre") []]}
          [].

(** The same staff before any advert exists. *)
Definition fresh_world : World :=
  mkWorld {[100000%Z; 200000%Z; 300000%Z]}
          ∅
          {[1%positive := mkMarketing (mkStaff 100000 50000 "Marketing") ∅]}
          {[1%positive := mkEditor (mkStaff 200000 60000 "Editing") ∅]}
          {[1%positive := mkProcessing (mkStaff 300000 55000 "Processing Centre") []]}
          [].

Definition create_AD001 : Command :=
  CreateAdvertCommand 1 "AD001" "Client A" "Full Page" "Back Cover" "2025-01-15".

Definition cancel_AD999 : Command := CancelAdvertCommand 1 "AD999".

Definition update_AD001 : Command :=
  UpdateAdvertCommand 1 "AD001" None (Some "Front Cover") None.

(** *** Vocabulary of the further properties *)

(** A reference to an advert object that exists. *)
Definition live (objs : gmap addr Advert) (a : addr) : Prop :=
  is_Some (objs !! a).

(** The entries of an issue that do not carry the id, in their order. *)
Definition others (objs : gmap addr Advert) (id : string) (issue : list addr)
    : list addr :=
  filter (λ ad, advert_id <$> objs !! ad ≠ Some id) issue.

Definition issue_missing : exn := ValueError "Issue date does not exist.".

Definition not_approved : exn := ValueError "Only approved adverts can be stored.".

Definition stored_msg (adv : Advert) : string :=
  "Advert " +:+ advert_id adv +:+ " stored successfully.".

(** The world after a successful [store_advert]. *)
Definition stored (self advert : addr) (adv : Advert) (p : ProcessingCentreStaff)
    (w : World) : World :=
  with_stdout (λ out, out ++ [stored_msg adv])%list
    (with_processing_objs
      (<[self := mkProcessing (processing_base p)
                              (stored_adverts p ++ [advert])%list]>) w).

(** The world after [cancel_advert] reached the advert at [a]. *)
Definition cancelled (a : addr) (adv : Advert) (w : World) : World :=
  with_advert_objs (<[a := set_status "Cancelled" adv]>) w.

(** The id of the advert a reference points to, if the object exists. *)
Definition id_of (objs : gmap addr Advert) (a : addr) : option string :=
  advert_id <$> objs !! a.

(** What the stores of a world have in common with the adverts they refer
    to: a marketing store keeps every advert under the advert's own id; the
    entries of an issue are existing adverts with pairwise different ids; the
    stored sequence of a processing centre refers to existing adverts. *)
Record wf (w : World) : Prop := mk_wf {
  wf_marketing : ∀ self me id a,
    marketing_objs w !! self = Some me →
    adverts me !! id = Some a →
    id_of (advert_objs w) a = Some id;
  wf_issues : ∀ self ed issue_date issue,
    editor_objs w !! self = Some ed →
    magazine_issues ed !! issue_date = Some issue →
    Forall (live (advert_objs w)) issue
    ∧ NoDup (id_of (advert_objs w) <$> issue);
  wf_stored : ∀ self p,
    processing_objs w !! self = Some p →
    Forall (live (advert_objs w)) (stored_adverts p)
}.

(** The receiver of a command and the advert it was built around exist. *)
Definition command_live (w : World) (c : Command) : Prop :=
  match c with
  | CreateAdvertCommand m _ _ _ _ _
  | UpdateAdvertCommand m _ _ _ _
  | CancelAdvertCommand m _ => is_Some (marketing_objs w !! m)
  | UpdateAdvertInIssueCommand e a _ =>
    is_Some (editor_objs w !! e) ∧ live (advert_objs w) a
  | RemoveAdvertFromIssueCommand e _ _ => is_Some (editor_objs w !! e)
  | StoreAdvertCommand p a =>
    is_Some (processing_objs w !! p) ∧ live (advert_objs w) a
  end.

(** What stays when a world [w] becomes [w']: every advert is still there
    with its id and its client, and is still cancelled if it was; every
    member of staff is still there with the same id, salary and department;
    the id registry is the same. *)
Definition evolves (w w' : World) : Prop :=
  (∀ a adv, advert_objs w !! a = Some adv →
     ∃ adv', advert_objs w' !! a = Some adv'
             ∧ advert_id adv' = advert_id adv
             ∧ client_name adv' = client_name adv
             ∧ (status adv = "Cancelled" → status adv' = "Cancelled"))
  ∧ (∀ a me, marketing_objs w !! a = Some me →
       ∃ me', marketing_objs w' !! a = Some me'
              ∧ marketing_base me' = marketing_base me)
  ∧ (∀ a ed, editor_objs w !! a = Some ed →
       ∃ ed', editor_objs w' !! a = Some ed' ∧ editor_base ed' = editor_base ed)
  ∧ (∀ a p, processing_objs w !! a = Some p →
       ∃ p', processing_objs w' !! a = Some p'
             ∧ processing_base p' = processing_base p)
  ∧ used_staff_ids w' = used_staff_ids w.

(** A reference to a member of staff of one of the three classes. *)
Inductive StaffRef :=
| MarketingRef (a : addr)
| EditorRef (a : addr)
| ProcessingRef (a : addr).

Global Instance StaffRef_eq_dec : EqDecision StaffRef.
Proof. solve_decision. Defined.

(** The [ITMagazineStaff] attributes of the object a reference points to. *)
Definition base_of (w : World) (ref : StaffRef) : option ITMagazineStaff :=
  match ref with
  | MarketingRef a => marketing_base <$> marketing_objs w !! a
  | EditorRef a => editor_base <$> editor_objs w !! a
  | ProcessingRef a => processing_base <$> processing_objs w !! a
  end.


(** The same members of staff with the same attributes, and the same
    registry. *)
Definition same_staff (w w' : World) : Prop :=
  used_staff_ids w' = used_staff_ids w
  ∧ ∀ ref, base_of w' ref = base_of w ref.

(** A computation that leaves staff and registry as they are. *)
Definition keeps_staff {A} (m : M A) : Prop :=
  ∀ w r w', m w = Some (r, w') → same_staff w w'.

(** *** Dates written with padding *)

(** The character of a decimal digit. *)
Definition digit_char (n : Z) : ascii := ascii_of_N (Z.to_N (48 + n)).

(** A number below 100 written with two digits, below 10000 with four. *)
Definition pad2 (n : Z) : string :=
  String (digit_char (n `div` 10)) (String (digit_char (n `mod` 10)) EmptyString).

Definition pad4 (n : Z) : string :=
  String (digit_char (n `div` 1000))
    (String (digit_char ((n `div` 100) `mod` 10))
       (String (digit_char ((n `div` 10) `mod` 10))
          (String (digit_char (n `mod` 10)) EmptyString))).

(** Month and day written [MM-DD]. *)
Definition month_day_text (m d : Z) : string := pad2 m +:+ "-" +:+ pad2 d.

(** A date written [YYYY-MM-DD]. *)
Definition iso_date (y m d : Z) : string := pad4 y +:+ "-" +:+ month_day_text m d.

(** What [strptime] reads as month and day after the year and its dash, when
    nothing is left over. *)
Definition month_day (t : string) : option (Z * Z) :=
  '(m, (d, s)) ← Strptime.month_then (λ s, s ← Strptime.lit "-"%char s; Strptime.day s) t;
  if truthy s then None else Some (m, d).

(** The month and day a padded text must denote to be read. *)
Definition month_day_expected (m d : Z) : option (Z * Z) :=
  if bool_decide ((1 ≤ m ≤ 12)%Z ∧ (1 ≤ d ≤ 31)%Z) then Some (m, d) else None.

Definition month_day_agrees (m d : Z) : bool :=
  bool_decide (month_day (month_day_text m d) = month_day_expected m d).

(** *** A second advert object with the id of the first *)

(** An [Advert] built directly, as [Advert("AD001", "Client A", "",
    "Front Cover", "2025-02-01")]: the constructor checks nothing, so the
    size may be empty. *)
Definition AD001_resubmitted : Advert :=
  Advert_init "AD001" "Client A" EmptyString "Front Cover" "2025-02-01" None.

(** The issue "2025-03-01" holds advert 1; advert 2 is the resubmission. *)
Definition resubmission_world : World :=
  mkWorld {[100000%Z; 200000%Z; 300000%Z]}
          {[1%positive := AD001 "Approved"; 2%positive := AD001_resubmitted]}
          {[1%positive := mkMarketing (mkStaff 100000 50000 "Marketing")
                                      {["AD001" := 1%positive]}]}
          {[1%positive := mkEditor (mkStaff 200000 60000 "Editing")
                                   {["2025-03-01" := [1%positive]]}]}
          {[1%positive := mkProcessing (mkStaff 300000 55000 "Processing Centre") []]}
          [].

(** *** Dates as the specification names them and as [strptime] reads them *)










(** * Properties *)

(** ** Reasoning about the monad *)

Lemma bind_ok {A B} (m : M A) (k : A → M B) (w w' : World) (a : A) :
  m w = Some (Ok a, w') → (m ≫= k) w = k a w'.
Proof. intros H. unfold mbind, M_bind. by rewrite H. Qed.

Lemma bind_raise {A B} (m : M A) (k : A → M B) (w w' : World) (e : exn) :
  m w = Some (Raise e, w') → (m ≫= k) w = Some (Raise e, w').
Proof. intros H. unfold mbind, M_bind. by rewrite H. Qed.

(** One step of a computation: run the head of a bind with [tac]. *)
Ltac step tac := etrans; [eapply bind_ok; tac|]; cbv beta.

Lemma get_advert_ok (w : World) (a : addr) (adv : Advert) :
  advert_objs w !! a = Some adv → get_advert a w = Some (Ok adv, w).
Proof. intros H. unfold get_advert. by rewrite H. Qed.

Lemma modify_advert_ok (w : World) (a : addr) (adv : Advert) (f : Advert → Advert) :
  advert_objs w !! a = Some adv →
  modify_advert a f w = Some (Ok (), with_advert_objs (<[a := f adv]>) w).
Proof. intros H. unfold modify_advert. by rewrite H. Qed.

Lemma get_marketing_ok (w : World) (a : addr) (me : MarketingDeptStaff) :
  marketing_objs w !! a = Some me → get_marketing a w = Some (Ok me, w).
Proof. intros H. unfold get_marketing. by rewrite H. Qed.

Lemma get_editor_ok (w : World) (a : addr) (ed : Editor) :
  editor_objs w !! a = Some ed → get_editor a w = Some (Ok ed, w).
Proof. intros H. unfold get_editor. by rewrite H. Qed.

Lemma modify_editor_ok (w : World) (a : addr) (ed : Editor) (f : Editor → Editor) :
  editor_objs w !! a = Some ed →
  modify_editor a f w = Some (Ok (), with_editor_objs (<[a := f ed]>) w).
Proof. intros H. unfold modify_editor. by rewrite H. Qed.

Lemma get_processing_ok (w : World) (a : addr) (p : ProcessingCentreStaff) :
  processing_objs w !! a = Some p → get_processing a w = Some (Ok p, w).
Proof. intros H. unfold get_processing. by rewrite H. Qed.

Lemma modify_processing_ok (w : World) (a : addr) (p : ProcessingCentreStaff)
    (f : ProcessingCentreStaff → ProcessingCentreStaff) :
  processing_objs w !! a = Some p →
  modify_processing a f w = Some (Ok (), with_processing_objs (<[a := f p]>) w).
Proof. intros H. unfold modify_processing. by rewrite H. Qed.

(** Two worlds are equal when their six components are. *)
Lemma world_eq (w1 w2 : World) :
  used_staff_ids w1 = used_staff_ids w2 →
  advert_objs w1 = advert_objs w2 →
  marketing_objs w1 = marketing_objs w2 →
  editor_objs w1 = editor_objs w2 →
  processing_objs w1 = processing_objs w2 →
  stdout w1 = stdout w2 →
  w1 = w2.
Proof. destruct w1, w2; simpl; by intros -> -> -> -> -> ->. Qed.

(** ** Editor: a cancelled advert is refused *)

(** C3. For every advert whose status is "Cancelled" and every issue date,
    [update_advert_in_issue] raises the error about cancelled adverts and the
    world after the call is the world before it; in particular the editor's
    [magazine_issues] has the same keys and the same sequences. *)
Theorem update_advert_in_issue_cancelled
    (w : World) (self advert : addr) (issue_date : string) (adv : Advert) :
  advert_objs w !! advert = Some adv →
  status adv = "Cancelled" →
  update_advert_in_issue self advert issue_date w = Some (Raise cancelled_msg, w)
  ∧ ∀ r w', update_advert_in_issue self advert issue_date w = Some (r, w') →
      magazine_issues <$> editor_objs w' !! self
      = magazine_issues <$> editor_objs w !! self.
Proof.
  intros Hadv Hst.
  assert (update_advert_in_issue self advert issue_date w
          = Some (Raise cancelled_msg, w)) as Hrun.
  { unfold update_advert_in_issue.
    rewrite (bind_ok _ _ _ _ _ (get_advert_ok _ _ _ Hadv)).
    by rewrite bool_decide_eq_true_2. }
  split; [done|]. intros r w'. rewrite Hrun. by intros [= _ <-].
Qed.

(** ** Advert: field merge and cancellation *)

Lemma with_advert_objs_id (w : World) (a : addr) (adv : Advert) :
  advert_objs w !! a = Some adv → with_advert_objs (<[a := adv]>) w = w.
Proof.
  intros H. apply world_eq; try done. simpl. by apply insert_id.
Qed.

Lemma with_advert_objs_twice (w : World) (a : addr) (v1 v2 : Advert) :
  with_advert_objs (<[a := v2]>) (with_advert_objs (<[a := v1]>) w)
  = with_advert_objs (<[a := v2]>) w.
Proof. apply world_eq; try done. simpl. apply insert_insert_eq. Qed.

Lemma when_truthy_modify (w : World) (self : addr) (a : Advert)
    (arg : option string) (set : string → Advert → Advert) (get : Advert → string) :
  (∀ v x, get (set v x) = v) →
  (∀ x, set (get x) x = x) →
  advert_objs w !! self = Some a →
  when_truthy arg (λ v, modify_advert self (set v)) w
  = Some (Ok (), with_advert_objs (<[self := set (merged arg (get a)) a]>) w).
Proof.
  intros Hgs Hsg Ha. unfold when_truthy, merged.
  destruct arg as [v|]; [destruct (truthy v)|].
  - by apply modify_advert_ok.
  - rewrite Hsg, with_advert_objs_id; done.
  - rewrite Hsg, with_advert_objs_id; done.
Qed.

Lemma Advert_update_details_ok (w : World) (self : addr) (a : Advert)
    (size_arg placement_arg date_arg : option string) :
  advert_objs w !! self = Some a →
  Advert_update_details self size_arg placement_arg date_arg w
  = Some (Ok (), with_advert_objs
                   (<[self := update_fields size_arg placement_arg date_arg a]>) w).
Proof.
  intros Ha. unfold Advert_update_details.
  erewrite bind_ok; last first.
  { apply (when_truthy_modify w self a size_arg set_size size); [done| |done].
    by intros []. }
  erewrite bind_ok; last first.
  { eapply (when_truthy_modify _ self _ placement_arg set_placement placement);
      [done| |simpl; apply lookup_insert_eq].
    by intros []. }
  erewrite when_truthy_modify with (get := publication_date);
    [|done| |simpl; apply lookup_insert_eq]; last by intros [].
  by rewrite !with_advert_objs_twice.
Qed.

(** ** Editor: looking an id up in an issue *)

Lemma find_by_id_absent (objs : gmap addr Advert) (id : string) (issue : list addr) :
  id_absent objs id issue → find_by_id objs id issue = Some None.
Proof.
  induction 1 as [|ad rest (a & Ha & Hne) _ IH]; simpl; [done|].
  rewrite Ha. simpl. by rewrite bool_decide_eq_false_2.
Qed.

Lemma find_by_id_first (objs : gmap addr Advert) (id : string)
    (before after : list addr) (ex : addr) (exa : Advert) :
  id_absent objs id before →
  objs !! ex = Some exa →
  advert_id exa = id →
  find_by_id objs id (before ++ ex :: after) = Some (Some ex).
Proof.
  intros Hbefore Hex Hid.
  induction Hbefore as [|ad rest (a & Ha & Hne) _ IH]; simpl.
  - rewrite Hex. simpl. by rewrite bool_decide_eq_true_2.
  - rewrite Ha. simpl. by rewrite bool_decide_eq_false_2.
Qed.

Lemma count_id_absent (objs : gmap addr Advert) (id : string) (issue : list addr) :
  id_absent objs id issue → count_id objs id issue = 0.
Proof.
  unfold count_id.
  induction 1 as [|ad rest (a & Ha & Hne) _ IH]; [done|].
  rewrite filter_cons_False; [done|].
  rewrite Ha. simpl. congruence.
Qed.

Lemma count_id_app (objs : gmap addr Advert) (id : string) (l1 l2 : list addr) :
  count_id objs id (l1 ++ l2) = count_id objs id l1 + count_id objs id l2.
Proof. unfold count_id. by rewrite filter_app, length_app. Qed.

(** Promoting an advert whose id is absent from an issue keeps it absent
    from the old entries. *)
Lemma id_absent_promote (objs : gmap addr Advert) (advert : addr) (adv : Advert)
    (issue : list addr) :
  objs !! advert = Some adv →
  id_absent objs (advert_id adv) issue →
  id_absent (<[advert := set_status "Approved" adv]> objs) (advert_id adv) issue.
Proof.
  intros Hadv Habs. unfold id_absent. eapply Forall_impl; [exact Habs|].
  intros ad (a & Ha & Hne). exists a. split; [|done].
  rewrite lookup_insert_ne; [done|]. intros ->. congruence.
Qed.

(** ** Editor: the two paths of [update_advert_in_issue] *)

Lemma with_editor_objs_twice (w : World) (a : addr) (v1 v2 : Editor) :
  with_editor_objs (<[a := v2]>) (with_editor_objs (<[a := v1]>) w)
  = with_editor_objs (<[a := v2]>) w.
Proof. apply world_eq; try done. simpl. apply insert_insert_eq. Qed.

Lemma set_issue_twice (issue_date : string) (l1 l2 : list addr) (ed : Editor) :
  set_issue issue_date l2 (set_issue issue_date l1 ed) = set_issue issue_date l2 ed.
Proof. unfold set_issue. simpl. by rewrite insert_insert_eq. Qed.

Lemma issue_of_set_issue (issue_date : string) (l : list addr) (ed : Editor) :
  issue_of (set_issue issue_date l ed) issue_date = l.
Proof. unfold issue_of, set_issue. simpl. by rewrite lookup_insert_eq. Qed.

Lemma update_advert_in_issue_append
    (w : World) (self advert : addr) (issue_date : string) (adv : Advert) (ed : Editor) :
  advert_objs w !! advert = Some adv →
  status adv ≠ "Cancelled" →
  editor_objs w !! self = Some ed →
  find_by_id (advert_objs w) (advert_id adv) (issue_of ed issue_date) = Some None →
  update_advert_in_issue self advert issue_date w
  = Some (Ok (), appended self advert issue_date adv ed w).
Proof.
  intros Hadv Hst Hed Hfind. unfold update_advert_in_issue.
  step ltac:(by apply get_advert_ok).
  rewrite bool_decide_eq_false_2 by done.
  step ltac:(by apply get_editor_ok).
  destruct (magazine_issues ed !! issue_date) as [issue|] eqn:Hissue.
  - rewrite bool_decide_eq_true_2 by eauto.
    step ltac:(reflexivity).
    step ltac:(by apply get_editor_ok).
    step ltac:(unfold next_by_id; by rewrite Hfind).
    step ltac:(by apply modify_editor_ok).
    step ltac:(by apply modify_advert_ok).
    done.
  - rewrite bool_decide_eq_false_2 by (by intros [? ?]).
    step ltac:(by apply modify_editor_ok).
    step ltac:(apply get_editor_ok; simpl; apply lookup_insert_eq).
    assert (issue_of ed issue_date = []) as Hnil by (unfold issue_of; by rewrite Hissue).
    rewrite issue_of_set_issue.
    step ltac:(reflexivity).
    step ltac:(apply modify_editor_ok; simpl; apply lookup_insert_eq).
    step ltac:(by apply modify_advert_ok).
    unfold print, appended, added_msg. simpl.
    rewrite issue_of_set_issue, set_issue_twice, Hnil. do 3 f_equal.
    apply world_eq; try done. simpl. by rewrite insert_insert_eq.
Qed.

Lemma update_advert_in_issue_merge
    (w : World) (self advert existing : addr) (issue_date : string)
    (adv exa : Advert) (ed : Editor) :
  advert_objs w !! advert = Some adv →
  status adv ≠ "Cancelled" →
  editor_objs w !! self = Some ed →
  find_by_id (advert_objs w) (advert_id adv) (issue_of ed issue_date)
    = Some (Some existing) →
  advert_objs w !! existing = Some exa →
  update_advert_in_issue self advert issue_date w
  = Some (Ok (), merged_into existing issue_date adv exa ed w).
Proof.
  intros Hadv Hst Hed Hfind Hex. unfold update_advert_in_issue.
  step ltac:(by apply get_advert_ok).
  rewrite bool_decide_eq_false_2 by done.
  step ltac:(by apply get_editor_ok).
  destruct (magazine_issues ed !! issue_date) as [issue|] eqn:Hissue.
  - rewrite bool_decide_eq_true_2 by eauto.
    step ltac:(reflexivity).
    step ltac:(by apply get_editor_ok).
    step ltac:(unfold next_by_id; by rewrite Hfind).
    step ltac:(by apply Advert_update_details_ok).
    done.
  - unfold issue_of in Hfind. rewrite Hissue in Hfind. done.
Qed.

(** C10. An advert whose status is "Published" and whose id is not in the
    issue passes the guard (only "Cancelled" is refused), is appended to the
    issue, and its status becomes "Approved". *)
Theorem update_advert_in_issue_published
    (w : World) (self advert : addr) (issue_date : string) (adv : Advert) (ed : Editor) :
  advert_objs w !! advert = Some adv →
  status adv = "Published" →
  editor_objs w !! self = Some ed →
  id_absent (advert_objs w) (advert_id adv) (issue_of ed issue_date) →
  ∃ w' ed',
    update_advert_in_issue self advert issue_date w = Some (Ok (), w')
    ∧ editor_objs w' !! self = Some ed'
    ∧ issue_of ed' issue_date = (issue_of ed issue_date ++ [advert])%list
    ∧ advert_objs w' !! advert = Some (set_status "Approved" adv).
Proof.
  intros Hadv Hst Hed Habs.
  eexists _, _. split; [|split; [|split]].
  - apply update_advert_in_issue_append with (ed := ed); try done.
    + by rewrite Hst.
    + by apply find_by_id_absent.
  - simpl. apply lookup_insert_eq.
  - apply issue_of_set_issue.
  - simpl. apply lookup_insert_eq.
Qed.

(** C4, as the code has it. For an advert that is not "Cancelled": when no
    advert of the issue has its id, the advert is appended, its status
    becomes "Approved" and the issue then holds that id exactly once; when
    the issue already has an advert with that id, the first such entry takes
    each of the given advert's size, placement and publication date that is
    not the empty string and keeps its own value where the given one is
    empty; nothing is appended, and the entry keeps its id, its client and
    its status. *)
Theorem update_advert_in_issue_not_cancelled
    (w : World) (self advert : addr) (issue_date : string) (adv : Advert) (ed : Editor) :
  advert_objs w !! advert = Some adv →
  status adv ≠ "Cancelled" →
  editor_objs w !! self = Some ed →
  (id_absent (advert_objs w) (advert_id adv) (issue_of ed issue_date) →
   ∃ w' ed',
     update_advert_in_issue self advert issue_date w = Some (Ok (), w')
     ∧ editor_objs w' !! self = Some ed'
     ∧ issue_of ed' issue_date = (issue_of ed issue_date ++ [advert])%list
     ∧ advert_objs w' !! advert = Some (set_status "Approved" adv)
     ∧ count_id (advert_objs w') (advert_id adv) (issue_of ed' issue_date) = 1)
  ∧ (∀ before existing after exa,
     issue_of ed issue_date = (before ++ existing :: after)%list →
     id_absent (advert_objs w) (advert_id adv) before →
     advert_objs w !! existing = Some exa →
     advert_id exa = advert_id adv →
     ∃ w' exa',
       update_advert_in_issue self advert issue_date w = Some (Ok (), w')
       ∧ editor_objs w' = editor_objs w
       ∧ advert_objs w' = <[existing := exa']> (advert_objs w)
       ∧ exa' = update_fields (Some (size adv)) (Some (placement adv))
                              (Some (publication_date adv)) exa
       ∧ size exa' = (if truthy (size adv) then size adv else size exa)
       ∧ placement exa'
         = (if truthy (placement adv) then placement adv else placement exa)
       ∧ publication_date exa'
         = (if truthy (publication_date adv) then publication_date adv
            else publication_date exa)
       ∧ advert_id exa' = advert_id exa
       ∧ client_name exa' = client_name exa
       ∧ status exa' = status exa).
Proof.
  intros Hadv Hst Hed. split.
  - intros Habs. eexists _, _. split; [|split; [|split; [|split]]].
    + apply update_advert_in_issue_append with (ed := ed); try done.
      by apply find_by_id_absent.
    + simpl. apply lookup_insert_eq.
    + apply issue_of_set_issue.
    + simpl. apply lookup_insert_eq.
    + rewrite issue_of_set_issue, count_id_app. simpl.
      rewrite count_id_absent by (by apply id_absent_promote).
      unfold count_id. rewrite filter_cons_True; [done|].
      by rewrite lookup_insert_eq.
  - intros before existing after exa Hissue Hbefore Hex Hid.
    eexists _, _. split; [|split; [|split; [|split]]].
    + apply update_advert_in_issue_merge with (ed := ed) (exa := exa); try done.
      rewrite Hissue. by apply find_by_id_first with (exa := exa).
    + done.
    + done.
    + done.
    + simpl. repeat split; done.
Qed.

(** ** Processing centre *)

(** C5. [store_advert] raises for every advert whose status is not
    "Approved" (so for "Pending", "Cancelled" and "Published") and leaves the
    world as it was; for an "Approved" advert it appends the reference to
    [stored_adverts] once per call, also when it is already stored, and
    changes no advert. *)
Theorem store_advert_spec
    (w : World) (self advert : addr) (adv : Advert) (p : ProcessingCentreStaff) :
  advert_objs w !! advert = Some adv →
  processing_objs w !! self = Some p →
  (status adv ≠ "Approved" →
   store_advert self advert w
   = Some (Raise (ValueError "Only approved adverts can be stored."), w))
  ∧ (status adv = "Approved" →
     ∃ w1 p1 w2 p2,
       store_advert self advert w = Some (Ok (), w1)
       ∧ processing_objs w1 !! self = Some p1
       ∧ stored_adverts p1 = (stored_adverts p ++ [advert])%list
       ∧ advert_objs w1 = advert_objs w
       ∧ store_advert self advert w1 = Some (Ok (), w2)
       ∧ processing_objs w2 !! self = Some p2
       ∧ stored_adverts p2 = (stored_adverts p ++ [advert; advert])%list
       ∧ advert_objs w2 = advert_objs w).
Proof.
  intros Hadv Hp. split.
  - intros Hst. unfold store_advert.
    step ltac:(by apply get_advert_ok).
    by rewrite bool_decide_eq_true_2.
  - intros Hst.
    assert (∀ w0 p0, advert_objs w0 !! advert = Some adv →
              processing_objs w0 !! self = Some p0 →
              store_advert self advert w0
              = Some (Ok (), with_stdout
                  (λ out, out ++ ["Advert " +:+ advert_id adv
                                  +:+ " stored successfully."])%list
                  (with_processing_objs
                     (<[self := mkProcessing (processing_base p0)
                                  (stored_adverts p0 ++ [advert])%list]>) w0)))
      as Hstore.
    { intros w0 p0 Hadv0 Hp0. unfold store_advert.
      step ltac:(by apply get_advert_ok).
      rewrite bool_decide_eq_false_2 by (by intros []).
      step ltac:(by apply modify_processing_ok).
      done. }
    eexists _, _, _, _. split; [by apply Hstore|].
    split; [simpl; apply lookup_insert_eq|].
    split; [done|]. split; [done|].
    split; [apply Hstore; [done|simpl; apply lookup_insert_eq]|].
    split; [simpl; apply lookup_insert_eq|].
    split; [simpl; by rewrite <-(assoc_L (++))|done].
Qed.

(** ** Marketing department *)

Lemma truthy_false (s : string) : truthy s = false ↔ s = EmptyString.
Proof. by destruct s. Qed.

Lemma str_in_false (x : string) (l : list string) : str_in x l = false ↔ x ∉ l.
Proof. unfold str_in. apply bool_decide_eq_false. Qed.

Lemma modify_marketing_ok (w : World) (a : addr) (me : MarketingDeptStaff)
    (f : MarketingDeptStaff → MarketingDeptStaff) :
  marketing_objs w !! a = Some me →
  modify_marketing a f w = Some (Ok (), with_marketing_objs (<[a := f me]>) w).
Proof. intros H. unfold modify_marketing. by rewrite H. Qed.

(** What [_is_valid_date] says on the dates of the test-suite and on the
    edges of the format: a day the month does not have and year 0 are
    refused, and so is trailing data; a month or day of one digit is
    accepted, as [strptime] does. *)
Example valid_date_AD001 : _is_valid_date "2025-01-15" = true.
Proof. reflexivity. Qed.

Example invalid_date_text : _is_valid_date "InvalidDate" = false.
Proof. reflexivity. Qed.

Example invalid_date_feb_30 : _is_valid_date "2025-02-30" = false.
Proof. reflexivity. Qed.

Example valid_date_leap_day : _is_valid_date "2024-02-29" = true.
Proof. reflexivity. Qed.

Example invalid_date_year_0 : _is_valid_date "0000-01-01" = false.
Proof. reflexivity. Qed.

Example invalid_date_trailing : _is_valid_date "2025-01-15 " = false.
Proof. reflexivity. Qed.

Example valid_date_one_digit : _is_valid_date "2025-1-5" = true.
Proof. reflexivity. Qed.

(** [create_advert] either refuses, raising without touching the world, or
    allocates the advert and records it. *)
Lemma create_advert_cases (w : World) (self : addr) (me : MarketingDeptStaff)
    (advert_id client_name size placement publication_date : string) :
  marketing_objs w !! self = Some me →
  (create_rejects me advert_id client_name size placement publication_date
   ∧ ∃ e, create_advert self advert_id client_name size placement publication_date w
          = Some (Raise e, w))
  ∨ (¬ create_rejects me advert_id client_name size placement publication_date
     ∧ create_advert self advert_id client_name size placement publication_date w
       = Some (Ok (fresh (dom (advert_objs w))),
               created self (fresh (dom (advert_objs w))) me
                 advert_id client_name size placement publication_date w)).
Proof.
  intros Hme. unfold create_advert, create_rejects.
  destruct (truthy advert_id) eqn:Hid; simpl;
    [|left; apply truthy_false in Hid; eauto 10].
  destruct (truthy client_name) eqn:Hclient; simpl;
    [|left; apply truthy_false in Hclient; eauto 10].
  destruct (str_in size valid_sizes) eqn:Hsize; simpl;
    [|left; apply str_in_false in Hsize; eauto 10].
  destruct (truthy placement) eqn:Hplacement; simpl;
    [|left; apply truthy_false in Hplacement; eauto 10].
  destruct (_is_valid_date publication_date) eqn:Hdate; simpl;
    [|left; eauto 10].
  destruct (adverts me !! advert_id) as [old|] eqn:Hold.
  - left. split; [eauto 10|]. eexists.
    step ltac:(by apply get_marketing_ok).
    rewrite Hold. by rewrite bool_decide_eq_true_2.
  - right. split.
    + intros [->|[->|[Hn|[->|[Hn|[? Hn]]]]]]; try done.
      by apply bool_decide_eq_true in Hsize.
    + step ltac:(by apply get_marketing_ok).
      rewrite Hold. rewrite bool_decide_eq_false_2 by (by intros [? ?]).
      step ltac:(reflexivity).
      step ltac:(by apply modify_marketing_ok).
      done.
Qed.

Lemma update_advert_present (w : World) (self a : addr) (advert_id : string)
    (size_arg placement_arg date_arg : option string)
    (me : MarketingDeptStaff) (adv : Advert) :
  marketing_objs w !! self = Some me →
  adverts me !! advert_id = Some a →
  advert_objs w !! a = Some adv →
  update_advert self advert_id size_arg placement_arg date_arg w
  = Some (Ok (updated_ok advert_id),
          with_advert_objs
            (<[a := update_fields size_arg placement_arg date_arg adv]>) w).
Proof.
  intros Hme Ha Hadv. unfold update_advert.
  step ltac:(by apply get_marketing_ok).
  rewrite Ha.
  step ltac:(by apply Advert_update_details_ok).
  done.
Qed.

Lemma update_advert_absent (w : World) (self : addr) (advert_id : string)
    (size_arg placement_arg date_arg : option string) (me : MarketingDeptStaff) :
  marketing_objs w !! self = Some me →
  adverts me !! advert_id = None →
  update_advert self advert_id size_arg placement_arg date_arg w
  = Some (Raise not_found, w).
Proof.
  intros Hme Ha. unfold update_advert.
  step ltac:(by apply get_marketing_ok).
  by rewrite Ha.
Qed.

(** C8, as the code has it. For an id of the store, [update_advert] gives
    each of size, placement and publication date the argument's value when
    the argument is supplied and is not the empty string, and leaves the
    field alone otherwise; [advert_id], [client_name] and [status] stay, and
    an update of the placement alone changes the placement alone.  For an id
    that is not in the store it raises and the world is unchanged. *)
Theorem update_advert_spec (w : World) (self : addr) (id : string)
    (size_arg placement_arg date_arg : option string) (me : MarketingDeptStaff) :
  marketing_objs w !! self = Some me →
  (∀ a adv,
     adverts me !! id = Some a →
     advert_objs w !! a = Some adv →
     ∃ w' adv',
       update_advert self id size_arg placement_arg date_arg w
       = Some (Ok (updated_ok id), w')
       ∧ w' = with_advert_objs (<[a := adv']>) w
       ∧ size adv' = (if truthy_opt size_arg
                      then default (size adv) size_arg else size adv)
       ∧ placement adv' = (if truthy_opt placement_arg
                           then default (placement adv) placement_arg
                           else placement adv)
       ∧ publication_date adv' = (if truthy_opt date_arg
                                  then default (publication_date adv) date_arg
                                  else publication_date adv)
       ∧ advert_id adv' = advert_id adv
       ∧ client_name adv' = client_name adv
       ∧ status adv' = status adv
       ∧ (size_arg = None → date_arg = None →
          adv' = set_placement (placement adv') adv))
  ∧ (adverts me !! id = None →
     update_advert self id size_arg placement_arg date_arg w
     = Some (Raise not_found, w)).
Proof.
  intros Hme. split.
  - intros a adv Ha Hadv.
    exists (with_advert_objs
              (<[a := update_fields size_arg placement_arg date_arg adv]>) w),
           (update_fields size_arg placement_arg date_arg adv).
    split; [by apply update_advert_present with (me := me)|].
    split; [done|]. simpl.
    split; [by destruct size_arg as [[]|]|].
    split; [by destruct placement_arg as [[]|]|].
    split; [by destruct date_arg as [[]|]|].
    do 3 (split; [done|]).
    by intros -> ->.
  - by apply update_advert_absent.
Qed.

Lemma cancel_advert_present (w : World) (self a : addr) (advert_id : string)
    (me : MarketingDeptStaff) (adv : Advert) :
  marketing_objs w !! self = Some me →
  adverts me !! advert_id = Some a →
  advert_objs w !! a = Some adv →
  cancel_advert self advert_id w
  = Some (Ok (cancelled_ok advert_id),
          with_advert_objs (<[a := set_status "Cancelled" adv]>) w).
Proof.
  intros Hme Ha Hadv. unfold cancel_advert.
  step ltac:(by apply get_marketing_ok).
  rewrite Ha.
  step ltac:(by apply modify_advert_ok).
  done.
Qed.

(** C9. For an id of the store, [cancel_advert] sets the advert's status to
    "Cancelled" whatever it was and changes nothing else; a second
    cancellation returns normally and leaves the world of the first one.  For
    an id that is not in the store it raises. *)
Theorem cancel_advert_spec (w : World) (self : addr) (advert_id : string)
    (me : MarketingDeptStaff) :
  marketing_objs w !! self = Some me →
  (∀ a adv,
     adverts me !! advert_id = Some a →
     advert_objs w !! a = Some adv →
     ∃ w',
       cancel_advert self advert_id w = Some (Ok (cancelled_ok advert_id), w')
       ∧ w' = with_advert_objs (<[a := set_status "Cancelled" adv]>) w
       ∧ status <$> advert_objs w' !! a = Some "Cancelled"
       ∧ cancel_advert self advert_id w' = Some (Ok (cancelled_ok advert_id), w'))
  ∧ (adverts me !! advert_id = None →
     cancel_advert self advert_id w = Some (Raise not_found, w)).
Proof.
  intros Hme. split.
  - intros a adv Ha Hadv. eexists. split; [|split; [reflexivity|split]].
    + by apply cancel_advert_present with (me := me).
    + simpl. by rewrite lookup_insert_eq.
    + erewrite cancel_advert_present with (me := me);
        [|done|done|simpl; apply lookup_insert_eq].
      simpl. by rewrite with_advert_objs_twice.
  - intros Ha. unfold cancel_advert.
    step ltac:(by apply get_marketing_ok).
    by rewrite Ha.
Qed.

(** ** Commands that raise leave the world alone *)

Lemma bind_inv_raise {A B} (m : M A) (k : A → M B) (w w' : World) (e : exn) :
  (m ≫= k) w = Some (Raise e, w') →
  m w = Some (Raise e, w')
  ∨ ∃ a w1, m w = Some (Ok a, w1) ∧ k a w1 = Some (Raise e, w').
Proof.
  unfold mbind, M_bind. destruct (m w) as [[[a|e'] w1]|].
  - intros H. right. by exists a, w1.
  - intros [= -> ->]. by left.
  - done.
Qed.

Lemma no_raise_bind {A B} (m : M A) (k : A → M B) :
  no_raise m → (∀ a, no_raise (k a)) → no_raise (m ≫= k).
Proof.
  intros Hm Hk w e w' [H|(a & w1 & _ & H)]%bind_inv_raise.
  - by apply Hm in H.
  - by apply Hk in H.
Qed.

Lemma no_raise_ret {A} (a : A) : no_raise (mret a).
Proof. by intros w e w'. Qed.

Lemma no_raise_print (line : string) : no_raise (print line).
Proof. by intros w e w'. Qed.

Lemma no_raise_get_advert (a : addr) : no_raise (get_advert a).
Proof. intros w e w'. unfold get_advert. by destruct (advert_objs w !! a). Qed.

Lemma no_raise_modify_advert (a : addr) (f : Advert → Advert) :
  no_raise (modify_advert a f).
Proof. intros w e w'. unfold modify_advert. by destruct (advert_objs w !! a). Qed.

Lemma no_raise_modify_editor (a : addr) (f : Editor → Editor) :
  no_raise (modify_editor a f).
Proof. intros w e w'. unfold modify_editor. by destruct (editor_objs w !! a). Qed.

Lemma no_raise_modify_marketing (a : addr) (f : MarketingDeptStaff → MarketingDeptStaff) :
  no_raise (modify_marketing a f).
Proof. intros w e w'. unfold modify_marketing. by destruct (marketing_objs w !! a). Qed.

Lemma no_raise_modify_processing (a : addr)
    (f : ProcessingCentreStaff → ProcessingCentreStaff) :
  no_raise (modify_processing a f).
Proof. intros w e w'. unfold modify_processing. by destruct (processing_objs w !! a). Qed.

Lemma no_raise_get_editor (a : addr) : no_raise (get_editor a).
Proof. intros w e w'. unfold get_editor. by destruct (editor_objs w !! a). Qed.

Lemma no_raise_next_by_id (id : string) (issue : list addr) :
  no_raise (next_by_id id issue).
Proof.
  intros w e w'. unfold next_by_id.
  by destruct (find_by_id (advert_objs w) id issue).
Qed.

Lemma no_raise_without_id (id : string) (issue : list addr) :
  no_raise (without_id id issue).
Proof.
  intros w e w'. unfold without_id.
  by destruct (filter_out_id (advert_objs w) id issue).
Qed.

Lemma no_raise_new_advert (v : Advert) : no_raise (new_advert v).
Proof. by intros w e w'. Qed.

Lemma no_raise_when_truthy (arg : option string) (k : string → M unit) :
  (∀ v, no_raise (k v)) → no_raise (when_truthy arg k).
Proof.
  intros Hk. unfold when_truthy. destruct arg as [v|]; [|apply no_raise_ret].
  destruct (truthy v); [apply Hk|apply no_raise_ret].
Qed.

Lemma no_raise_update_details (self : addr) (s p d : option string) :
  no_raise (Advert_update_details self s p d).
Proof.
  unfold Advert_update_details.
  repeat (apply no_raise_bind; [|intros _]);
    apply no_raise_when_truthy; intros v; apply no_raise_modify_advert.
Qed.

Create HintDb no_raise.
#[export] Hint Resolve no_raise_ret no_raise_print no_raise_get_advert
  no_raise_modify_advert no_raise_modify_editor no_raise_modify_marketing
  no_raise_modify_processing no_raise_get_editor no_raise_next_by_id
  no_raise_without_id no_raise_new_advert no_raise_update_details : no_raise.

(** Reading an object returns it and leaves the world alone. *)
Lemma get_advert_inv (a : addr) (w w' : World) (r : Result Advert) :
  get_advert a w = Some (r, w') → w' = w ∧ ∃ v, r = Ok v.
Proof.
  unfold get_advert. destruct (advert_objs w !! a); simpl; [|done].
  intros [= <- <-]. eauto.
Qed.

Lemma get_marketing_inv (a : addr) (w w' : World) (r : Result MarketingDeptStaff) :
  get_marketing a w = Some (r, w') → w' = w ∧ ∃ v, r = Ok v.
Proof.
  unfold get_marketing. destruct (marketing_objs w !! a); simpl; [|done].
  intros [= <- <-]. eauto.
Qed.

Lemma get_editor_inv (a : addr) (w w' : World) (r : Result Editor) :
  get_editor a w = Some (r, w') → w' = w ∧ ∃ v, r = Ok v.
Proof.
  unfold get_editor. destruct (editor_objs w !! a); simpl; [|done].
  intros [= <- <-]. eauto.
Qed.

Lemma raise_inv {A} (e e' : exn) (w w' : World) :
  @raise A e w = Some (Raise e', w') → w' = w.
Proof. by intros [= _ <-]. Qed.

Lemma create_advert_raise_unchanged (self : addr)
    (advert_id client_name size placement publication_date : string) :
  raise_unchanged
    (create_advert self advert_id client_name size placement publication_date).
Proof.
  intros w e w'. unfold create_advert.
  repeat (case_match; [by intros ?%raise_inv|]).
  intros [Hr|(me & w1 & Hget & Hr)]%bind_inv_raise.
  - by apply get_marketing_inv in Hr as [_ [? ?]].
  - apply get_marketing_inv in Hget as [-> _].
    case_match; [by apply raise_inv in Hr|].
    exfalso. revert Hr.
    apply no_raise_bind; [auto with no_raise|intros a].
    apply no_raise_bind; auto with no_raise.
Qed.

Lemma update_advert_raise_unchanged (self : addr) (advert_id : string)
    (s p d : option string) :
  raise_unchanged (update_advert self advert_id s p d).
Proof.
  intros w e w'. unfold update_advert.
  intros [Hr|(me & w1 & Hget & Hr)]%bind_inv_raise.
  - by apply get_marketing_inv in Hr as [_ [? ?]].
  - apply get_marketing_inv in Hget as [-> _].
    case_match; [|by apply raise_inv in Hr].
    exfalso. revert Hr. apply no_raise_bind; auto with no_raise.
Qed.

Lemma cancel_advert_raise_unchanged (self : addr) (advert_id : string) :
  raise_unchanged (cancel_advert self advert_id).
Proof.
  intros w e w'. unfold cancel_advert.
  intros [Hr|(me & w1 & Hget & Hr)]%bind_inv_raise.
  - by apply get_marketing_inv in Hr as [_ [? ?]].
  - apply get_marketing_inv in Hget as [-> _].
    case_match; [|by apply raise_inv in Hr].
    exfalso. revert Hr. unfold Advert_cancel_advert.
    apply no_raise_bind; auto with no_raise.
Qed.

Lemma update_advert_in_issue_raise_unchanged (self advert : addr) (issue_date : string) :
  raise_unchanged (update_advert_in_issue self advert issue_date).
Proof.
  intros w e w'. unfold update_advert_in_issue.
  intros [Hr|(adv & w1 & Hget & Hr)]%bind_inv_raise.
  - by apply get_advert_inv in Hr as [_ [? ?]].
  - apply get_advert_inv in Hget as [-> _].
    case_match; [by apply raise_inv in Hr|].
    exfalso. revert Hr.
    apply no_raise_bind; [auto with no_raise|intros ed].
    apply no_raise_bind; [case_match; auto with no_raise|intros _].
    apply no_raise_bind; [auto with no_raise|intros ed'].
    apply no_raise_bind; [auto with no_raise|intros [existing|]].
    + apply no_raise_bind; auto with no_raise.
    + apply no_raise_bind; [auto with no_raise|intros _].
      apply no_raise_bind; auto with no_raise.
Qed.

Lemma remove_advert_from_issue_raise_unchanged (self : addr)
    (advert_id issue_date : string) :
  raise_unchanged (remove_advert_from_issue self advert_id issue_date).
Proof.
  intros w e w'. unfold remove_advert_from_issue.
  intros [Hr|(ed & w1 & Hget & Hr)]%bind_inv_raise.
  - by apply get_editor_inv in Hr as [_ [? ?]].
  - apply get_editor_inv in Hget as [-> _].
    case_match; [|by apply raise_inv in Hr].
    exfalso. revert Hr. apply no_raise_bind; auto with no_raise.
Qed.

Lemma store_advert_raise_unchanged (self advert : addr) :
  raise_unchanged (store_advert self advert).
Proof.
  intros w e w'. unfold store_advert.
  intros [Hr|(adv & w1 & Hget & Hr)]%bind_inv_raise.
  - by apply get_advert_inv in Hr as [_ [? ?]].
  - apply get_advert_inv in Hget as [-> _].
    case_match; [by apply raise_inv in Hr|].
    exfalso. revert Hr. apply no_raise_bind; auto with no_raise.
Qed.

(** Every command checks before it writes: a command that raises has not
    changed the world. *)
Lemma execute_raise_unchanged (command : Command) : raise_unchanged (execute command).
Proof.
  intros w e w'. destruct command; simpl.
  - intros [Hr|(a & w1 & _ & Hr)]%bind_inv_raise; [|done].
    by apply create_advert_raise_unchanged in Hr.
  - intros [Hr|(a & w1 & _ & Hr)]%bind_inv_raise; [|done].
    by apply update_advert_raise_unchanged in Hr.
  - intros [Hr|(a & w1 & _ & Hr)]%bind_inv_raise; [|done].
    by apply cancel_advert_raise_unchanged in Hr.
  - intros [Hr|(a & w1 & _ & Hr)]%bind_inv_raise.
    + by apply update_advert_in_issue_raise_unchanged in Hr.
    + exfalso. revert Hr. apply no_raise_bind; auto with no_raise.
  - intros [Hr|(a & w1 & _ & Hr)]%bind_inv_raise; [|done].
    by apply remove_advert_from_issue_raise_unchanged in Hr.
  - intros [Hr|(a & w1 & _ & Hr)]%bind_inv_raise.
    + by apply store_advert_raise_unchanged in Hr.
    + exfalso. revert Hr. apply no_raise_bind; auto with no_raise.
Qed.

(** ** The invoker *)

Lemma command_queue_foldl (inv : CommandInvoker) (cmds : list Command) :
  command_queue (foldl add_command inv cmds) = (command_queue inv ++ cmds)%list.
Proof.
  revert inv. induction cmds as [|c cmds IH]; intros inv; simpl.
  - by rewrite app_nil_r.
  - rewrite IH. simpl. by rewrite <-(assoc_L (++)).
Qed.

Lemma command_queue_enqueue_all (cmds : list Command) :
  command_queue (enqueue_all cmds) = cmds.
Proof. unfold enqueue_all. by rewrite command_queue_foldl. Qed.

(** The loop runs a succeeding prefix of the queue and carries on with the
    rest, the results of the prefix accumulated in order. *)
Lemma run_queue_prefix (pre rest : list Command) (acc rs : list PyResult)
    (w w1 : World) :
  runs_ok w pre rs w1 →
  run_queue (pre ++ rest) acc w = run_queue rest (acc ++ rs)%list w1.
Proof.
  intros Hruns. revert acc.
  induction Hruns as [w|w w1 w2 c r cs rs Hc _ IH]; intros acc; simpl.
  - by rewrite app_nil_r.
  - rewrite Hc, IH. by rewrite <-(assoc_L (++)).
Qed.

(** C2. When every enqueued command returns, [execute_commands] runs them
    first-in first-out, returns their results in that order and leaves the
    queue empty; on an empty queue it prints that there is nothing to
    execute, changes nothing else and returns the empty list. *)
Theorem execute_commands_all_succeed
    (cmds : list Command) (rs : list PyResult) (w w' : World) :
  runs_ok w cmds rs w' →
  execute_commands (enqueue_all cmds) w
  = Some (Ok rs, mkInvoker [],
          match cmds with [] => nothing_to_run w' | _ :: _ => w' end)
  ∧ execute_commands CommandInvoker_init w
    = Some (Ok [], CommandInvoker_init, nothing_to_run w).
Proof.
  intros Hruns. split; [|done].
  unfold execute_commands. rewrite command_queue_enqueue_all.
  destruct Hruns as [w|w w1 w2 c r cs rs Hc Hruns]; [done|].
  simpl.
  rewrite Hc. rewrite <-(app_nil_r cs).
  rewrite (run_queue_prefix cs [] _ rs w1 w2 Hruns). done.
Qed.

(** C1, as the code has it. When the commands before the K-th all return and
    the K-th raises, [execute_commands] raises that same exception; the world
    is the one the first K-1 commands left; the K-th command is gone from the
    queue and the commands after it are still there, in order.  The caller
    gets the exception and no results: the list of the first K-1 results is
    local to the call. *)
Theorem execute_commands_failure
    (pre post : list Command) (cmd : Command) (rs : list PyResult)
    (w w1 w2 : World) (e : exn) :
  runs_ok w pre rs w1 →
  execute cmd w1 = Some (Raise e, w2) →
  execute_commands (enqueue_all (pre ++ cmd :: post)) w
  = Some (Raise e, mkInvoker post, w1)
  ∧ w2 = w1
  ∧ returned_results (execute_commands (enqueue_all (pre ++ cmd :: post)) w) = None.
Proof.
  intros Hruns Hcmd.
  assert (w2 = w1) as -> by (by apply execute_raise_unchanged in Hcmd).
  assert (execute_commands (enqueue_all (pre ++ cmd :: post)) w
          = Some (Raise e, mkInvoker post, w1)) as Hout.
  { unfold execute_commands. rewrite command_queue_enqueue_all.
    replace (length (pre ++ cmd :: post) =? 0)%nat with false
      by (symmetry; apply Nat.eqb_neq; rewrite length_app; simpl; lia).
    rewrite (run_queue_prefix pre _ [] rs w w1 Hruns). simpl.
    by rewrite Hcmd. }
  by rewrite Hout.
Qed.

(** ** Staff construction *)

(** *** The length of [str(staff_id)] *)

Lemma pretty_N_go_length_ge (x : N) (s : string) :
  (String.length s ≤ String.length (pretty_N_go x s))%nat.
Proof.
  revert s. induction (N.lt_wf_0 x) as [x _ IH]; intros s.
  destruct (decide (x = 0)%N) as [->|Hx]; [by rewrite pretty_N_go_0|].
  rewrite pretty_N_go_step by lia.
  etrans; [|apply IH; apply N.div_lt; lia]. simpl. lia.
Qed.

Lemma pow10_succ (k : nat) : (10 ^ N.of_nat (S k) = 10 * 10 ^ N.of_nat k)%N.
Proof. by rewrite Nat2N.inj_succ, N.pow_succ_r'. Qed.

Lemma pow10_pos (k : nat) : (0 < 10 ^ N.of_nat k)%N.
Proof. apply N.neq_0_lt_0, N.pow_nonzero. lia. Qed.

(** A number with [k + 1] decimal digits prints as [k + 1] characters. *)
Lemma pretty_N_go_length (k : nat) (x : N) (s : string) :
  (10 ^ N.of_nat k ≤ x < 10 ^ N.of_nat (S k))%N →
  String.length (pretty_N_go x s) = String.length s + S k.
Proof.
  revert x s. induction k as [|k IH]; intros x s [Hlo Hhi].
  - change (10 ^ N.of_nat 0)%N with 1%N in Hlo.
    change (10 ^ N.of_nat 1)%N with 10%N in Hhi.
    rewrite pretty_N_go_step by lia.
    rewrite N.div_small by lia. rewrite pretty_N_go_0. simpl. lia.
  - pose proof (pow10_pos (S k)).
    rewrite pretty_N_go_step by lia.
    rewrite IH; [simpl; lia|].
    rewrite (pow10_succ (S k)) in Hhi. rewrite (pow10_succ k) in Hlo, Hhi |- *.
    split.
    + apply N.div_le_lower_bound; lia.
    + apply N.Div0.div_lt_upper_bound; lia.
Qed.

Lemma pretty_N_go_length_lower (k : nat) (x : N) (s : string) :
  (10 ^ N.of_nat k ≤ x)%N →
  (String.length s + S k ≤ String.length (pretty_N_go x s))%nat.
Proof.
  revert x s. induction k as [|k IH]; intros x s Hlo.
  - change (10 ^ N.of_nat 0)%N with 1%N in Hlo.
    rewrite pretty_N_go_step by lia.
    etrans; [|apply pretty_N_go_length_ge]. simpl. lia.
  - pose proof (pow10_pos (S k)).
    rewrite pretty_N_go_step by lia.
    etrans; [|apply IH]; [simpl; lia|].
    rewrite (pow10_succ k) in Hlo.
    apply N.div_le_lower_bound; lia.
Qed.

Lemma pretty_pos_length (p : positive) (n : nat) :
  (n < 6)%nat →
  String.length (pretty (Npos p)) = S n
  ↔ (10 ^ N.of_nat n ≤ Npos p < 10 ^ N.of_nat (S n))%N.
Proof.
  intros Hn. unfold pretty, pretty_N.
  rewrite decide_False by done.
  split.
  - intros Hlen.
    assert (∀ k, (10 ^ N.of_nat k ≤ Npos p < 10 ^ N.of_nat (S k))%N → k = n) as Huniq.
    { intros k Hk. apply (pretty_N_go_length k _ EmptyString) in Hk. simpl in Hk. lia. }
    assert (¬ (10 ^ N.of_nat 6 ≤ Npos p)%N) as Hsmall.
    { intros Hk. apply (pretty_N_go_length_lower 6 _ EmptyString) in Hk.
      simpl in Hk. lia. }
    assert (∃ k, (10 ^ N.of_nat k ≤ Npos p < 10 ^ N.of_nat (S k))%N) as [k Hk].
    { change (10 ^ N.of_nat 6)%N with 1000000%N in Hsmall.
      assert (Npos p < 10 ∨ 10 ≤ Npos p < 100 ∨ 100 ≤ Npos p < 1000
              ∨ 1000 ≤ Npos p < 10000 ∨ 10000 ≤ Npos p < 100000
              ∨ 100000 ≤ Npos p < 1000000)%N
        as [?|[?|[?|[?|[?|?]]]]] by lia;
        [exists 0|exists 1|exists 2|exists 3|exists 4|exists 5];
        vm_compute (10 ^ _)%N; lia. }
    by rewrite <-(Huniq k Hk).
  - intros Hk. by rewrite (pretty_N_go_length n).
Qed.

(** [len(str(z)) == 6] holds for the six-digit positive integers and also
    for the five-digit negative ones, whose sign is the sixth character. *)
Lemma len_str_6 (z : Z) :
  len (str (PyInt z)) = 6
  ↔ (100000 ≤ z ≤ 999999 ∨ -99999 ≤ z ≤ -10000)%Z.
Proof.
  unfold len, str. destruct z as [|p|p].
  - split; [done|lia].
  - change (pretty (Z.pos p)) with (pretty (Npos p)).
    rewrite (pretty_pos_length p 5) by lia.
    vm_compute (10 ^ _)%N. lia.
  - change (pretty (Z.neg p)) with ("-" +:+ pretty (Npos p)).
    change (String.length ("-" +:+ pretty (Npos p)))
      with (S (String.length (pretty (Npos p)))).
    split.
    + intros [= Hlen]. apply (pretty_pos_length p 4) in Hlen; [|lia].
      vm_compute (10 ^ _)%N in Hlen. lia.
    + intros H. f_equal. apply (pretty_pos_length p 4); [lia|].
      vm_compute (10 ^ _)%N. lia.
Qed.

(** *** [ITMagazineStaff.__init__] *)

(** On an [int] the constructor either accepts, registering the id, or
    raises and leaves the registry alone. *)
Lemma ITMagazineStaff_init_int (w : World) (z salary : Z) (dept : string) :
  (staff_accepted w z salary dept
   ∧ ITMagazineStaff_init (PyInt z) salary dept w
     = Some (Ok (mkStaff z salary dept), registered z w))
  ∨ (¬ staff_accepted w z salary dept
     ∧ ∃ e, ITMagazineStaff_init (PyInt z) salary dept w = Some (Raise e, w)).
Proof.
  unfold ITMagazineStaff_init, staff_accepted.
  destruct (len (str (PyInt z)) =? 6)%nat eqn:Hlen; simpl.
  2: { right. apply Nat.eqb_neq in Hlen. split; [tauto|by eexists]. }
  apply Nat.eqb_eq in Hlen.
  destruct ((10000 <=? salary)%Z && (salary <=? 1000000)%Z) eqn:Hsal; simpl.
  2: { right. split; [|by eexists].
       intros (_ & [? ?] & _).
       apply andb_false_iff in Hsal as [?%Z.leb_gt|?%Z.leb_gt]; lia. }
  apply andb_true_iff in Hsal as [?%Z.leb_le ?%Z.leb_le].
  destruct (str_in dept valid_departments) eqn:Hdept; simpl.
  2: { right. apply str_in_false in Hdept. split; [tauto|by eexists]. }
  apply bool_decide_eq_true in Hdept.
  destruct (decide (z ∈ used_staff_ids w)) as [Hused|Hfree].
  - right. split; [tauto|]. eexists.
    step ltac:(reflexivity). by rewrite bool_decide_eq_true_2.
  - left. split; [done|].
    step ltac:(reflexivity). rewrite bool_decide_eq_false_2 by done.
    step ltac:(reflexivity). done.
Qed.

(** A [str] id is refused by the [isinstance] test. *)
Lemma ITMagazineStaff_init_str (w : World) (s : string) (salary : Z) (dept : string) :
  ITMagazineStaff_init (PyStr s) salary dept w
  = Some (Raise (ValueError "Staff ID must be a 6-digit integer."), w).
Proof. done. Qed.

(** No partial registration: a constructor call that raises leaves the whole
    world, the registry included, as it was; the object it was building has
    no [staff_id] attribute yet, so its [__del__] releases nothing. *)
Lemma ITMagazineStaff_init_raise_unchanged (staff_id : PyArg) (salary : Z)
    (dept : string) :
  raise_unchanged (ITMagazineStaff_init staff_id salary dept).
Proof.
  intros w e w' Hrun. destruct staff_id as [z|s].
  - destruct (ITMagazineStaff_init_int w z salary dept)
      as [[_ Hok]|[_ [e' Hraise]]]; congruence.
  - rewrite ITMagazineStaff_init_str in Hrun. congruence.
Qed.

Lemma ITMagazineStaff_del_unset (w : World) :
  ITMagazineStaff_del None w = Some (Ok (), w).
Proof. done. Qed.

(** A duplicate id is refused and the first registration stays. *)
Lemma ITMagazineStaff_init_duplicate (w : World) (z salary : Z) (dept : string) :
  z ∈ used_staff_ids w →
  ∃ e, ITMagazineStaff_init (PyInt z) salary dept w = Some (Raise e, w).
Proof.
  intros Hused.
  destruct (ITMagazineStaff_init_int w z salary dept)
    as [[(_ & _ & _ & Hfree) _]|[_ Hraise]]; done.
Qed.

(** C6, where the code departs from it. The id -12345 has five digits, yet
    [len(str(-12345))] is 6, so the constructor accepts it and registers it,
    for the base class and for a marketing member of staff alike. *)
Theorem staff_init_accepts_negative_id :
  ITMagazineStaff_init (PyInt (-12345)) 50000 "Marketing" empty_world
  = Some (Ok (mkStaff (-12345) 50000 "Marketing"), registered (-12345) empty_world)
  ∧ (∃ a w', MarketingDeptStaff_init (PyInt (-12345)) 50000 "Marketing" empty_world
             = Some (Ok a, w')
             ∧ (-12345)%Z ∈ used_staff_ids w')
  ∧ len (str (PyInt (Z.abs (-12345)))) = 5.
Proof.
  split; [|split].
  - destruct (ITMagazineStaff_init_int empty_world (-12345) 50000 "Marketing")
      as [[_ Hok]|[Hno _]]; [done|].
    exfalso. apply Hno. unfold staff_accepted.
    split; [by apply len_str_6; lia|].
    split; [lia|]. split; [set_solver|set_solver].
  - eexists _, _. split; [reflexivity|]. simpl. set_solver.
  - reflexivity.
Qed.

(** * The statements at concrete inputs *)

(** The claim of C1 about the results fails on the queue create "AD001",
    cancel "AD999", update "AD001": the first command returns the new advert,
    the second raises, and the caller of [execute_commands] is left with the
    exception and without the first result. *)
Lemma execute_commands_failure_loses_results :
  ∃ w1,
    runs_ok fresh_world [create_AD001] [RAdvert 1] w1
    ∧ execute cancel_AD999 w1 = Some (Raise not_found, w1)
    ∧ execute_commands (enqueue_all [create_AD001; cancel_AD999; update_AD001])
                       fresh_world
      = Some (Raise not_found, mkInvoker [update_AD001], w1)
    ∧ returned_results
        (execute_commands (enqueue_all [create_AD001; cancel_AD999; update_AD001])
                          fresh_world)
      ≠ Some [RAdvert 1].
Proof.
  eexists. split; [|split; [|split]].
  - eapply runs_ok_cons; [reflexivity|apply runs_ok_nil].
  - reflexivity.
  - reflexivity.
  - discriminate.
Qed.

Lemma execute_commands_failure_witness :
  execute_commands (enqueue_all [create_AD001; cancel_AD999; update_AD001]) fresh_world
  = Some (Raise not_found, mkInvoker [update_AD001],
          created 1 1 (mkMarketing (mkStaff 100000 50000 "Marketing") ∅)
                  "AD001" "Client A" "Full Page" "Back Cover" "2025-01-15" fresh_world).
Proof.
  refine (proj1 (execute_commands_failure [create_AD001] [update_AD001] cancel_AD999
                   [RAdvert 1] fresh_world _ _ not_found _ _)).
  - eapply runs_ok_cons; [reflexivity|apply runs_ok_nil].
  - reflexivity.
Defined.

Lemma execute_commands_all_succeed_witness :
  execute_commands (enqueue_all [create_AD001; update_AD001]) fresh_world
  = Some (Ok [RAdvert 1; RStr "Advert AD001 updated successfully."], mkInvoker [],
          with_advert_objs
            (<[1%positive := set_placement "Front Cover" (AD001 "Pending")]>)
            (created 1 1 (mkMarketing (mkStaff 100000 50000 "Marketing") ∅)
                     "AD001" "Client A" "Full Page" "Back Cover" "2025-01-15"
                     fresh_world)).
Proof.
  refine (proj1 (execute_commands_all_succeed [create_AD001; update_AD001]
                   _ fresh_world _ _)).
  eapply runs_ok_cons; [reflexivity|].
  eapply runs_ok_cons; [reflexivity|].
  apply runs_ok_nil.
Defined.

Lemma update_advert_in_issue_cancelled_witness :
  update_advert_in_issue 1 1 "2025-03-01" (example_world "Cancelled" [])
  = Some (Raise cancelled_msg, example_world "Cancelled" []).
Proof.
  apply (update_advert_in_issue_cancelled (example_world "Cancelled" []) 1 1
           "2025-03-01" (AD001 "Cancelled")); reflexivity.
Defined.

(** The claim of C4 about the merge fails for a given advert whose size is
    the empty string: the call returns normally, the entry of the issue takes
    the placement "Front Cover" and keeps the size "Full Page", which is not
    the size of the given advert. *)
Lemma update_advert_in_issue_empty_size_not_merged :
  ∃ w',
    update_advert_in_issue 1 2 "2025-03-01" resubmission_world = Some (Ok (), w')
    ∧ size <$> advert_objs resubmission_world !! 2%positive = Some EmptyString
    ∧ size <$> advert_objs w' !! 1%positive = Some "Full Page"
    ∧ size <$> advert_objs w' !! 1%positive
      ≠ size <$> advert_objs resubmission_world !! 2%positive
    ∧ placement <$> advert_objs w' !! 1%positive = Some "Front Cover".
Proof.
  eexists. split; [reflexivity|]. split; [reflexivity|]. split; [reflexivity|].
  split; [discriminate|reflexivity].
Qed.

Lemma update_advert_in_issue_not_cancelled_witness :
  (∃ w' ed',
     update_advert_in_issue 1 1 "2025-03-01" (example_world "Pending" [])
     = Some (Ok (), w')
     ∧ editor_objs w' !! 1%positive = Some ed'
     ∧ issue_of ed' "2025-03-01" = [1%positive]
     ∧ advert_objs w' !! 1%positive = Some (AD001 "Approved")
     ∧ count_id (advert_objs w') "AD001" (issue_of ed' "2025-03-01") = 1)
  ∧ (∃ w',
       update_advert_in_issue 1 2 "2025-03-01" resubmission_world = Some (Ok (), w')
       ∧ editor_objs w' = editor_objs resubmission_world
       ∧ advert_objs w' !! 1%positive
         = Some (mkAdvert "AD001" "Client A" "Full Page" "Front Cover" "2025-02-01"
                          "Approved")
       ∧ advert_objs w' !! 2%positive = Some AD001_resubmitted).
Proof.
  split.
  - destruct (update_advert_in_issue_not_cancelled
                (example_world "Pending" []) 1 1 "2025-03-01" (AD001 "Pending")
                (mkEditor (mkStaff 200000 60000 "Editing") {["2025-03-01" := []]}))
      as [Happend _]; [reflexivity|discriminate|reflexivity|].
    apply Happend. constructor.
  - destruct (update_advert_in_issue_not_cancelled
                resubmission_world 1 2 "2025-03-01" AD001_resubmitted
                (mkEditor (mkStaff 200000 60000 "Editing")
                          {["2025-03-01" := [1%positive]]}))
      as [_ Hmerge]; [reflexivity|discriminate|reflexivity|].
    destruct (Hmerge [] 1%positive [] (AD001 "Approved"))
      as (w' & exa' & Hrun & Hed & Hobjs & Hexa & _);
      [reflexivity|constructor|reflexivity|reflexivity|].
    exists w'. split; [exact Hrun|]. split; [exact Hed|].
    rewrite Hobjs, Hexa. split; reflexivity.
Defined.

Lemma store_advert_spec_witness :
  (store_advert 1 1 (example_world "Pending" [])
   = Some (Raise (ValueError "Only approved adverts can be stored."),
           example_world "Pending" []))
  ∧ (∃ w1 p1 w2 p2,
       store_advert 1 1 (example_world "Approved" []) = Some (Ok (), w1)
       ∧ processing_objs w1 !! 1%positive = Some p1
       ∧ stored_adverts p1 = [1%positive]
       ∧ advert_objs w1 = advert_objs (example_world "Approved" [])
       ∧ store_advert 1 1 w1 = Some (Ok (), w2)
       ∧ processing_objs w2 !! 1%positive = Some p2
       ∧ stored_adverts p2 = [1%positive; 1%positive]
       ∧ advert_objs w2 = advert_objs (example_world "Approved" [])).
Proof.
  split.
  - apply (store_advert_spec (example_world "Pending" []) 1 1 (AD001 "Pending")
             (mkProcessing (mkStaff 300000 55000 "Processing Centre") []));
      [reflexivity|reflexivity|discriminate].
  - apply (store_advert_spec (example_world "Approved" []) 1 1 (AD001 "Approved")
             (mkProcessing (mkStaff 300000 55000 "Processing Centre") []));
      reflexivity.
Defined.

(** The claim of C8 fails for a size supplied as the empty string: the call
    returns normally and the size is still "Full Page". *)
Lemma update_advert_empty_size_ignored :
  ∃ w',
    update_advert 1 "AD001" (Some EmptyString) None None (example_world "Pending" [])
    = Some (Ok (updated_ok "AD001"), w')
    ∧ size <$> advert_objs w' !! 1%positive = Some "Full Page"
    ∧ size <$> advert_objs w' !! 1%positive ≠ Some EmptyString.
Proof.
  eexists. split; [reflexivity|]. split; [reflexivity|discriminate].
Qed.

Lemma update_advert_spec_witness :
  ∃ w' adv',
    update_advert 1 "AD001" None (Some "Front Cover") None (example_world "Pending" [])
    = Some (Ok (updated_ok "AD001"), w')
    ∧ w' = with_advert_objs (<[1%positive := adv']>) (example_world "Pending" [])
    ∧ adv' = set_placement "Front Cover" (AD001 "Pending").
Proof.
  destruct (update_advert_spec (example_world "Pending" []) 1 "AD001"
              None (Some "Front Cover") None
              (mkMarketing (mkStaff 100000 50000 "Marketing") {["AD001" := 1%positive]}))
    as [Hpresent _]; [reflexivity|].
  destruct (Hpresent 1%positive (AD001 "Pending"))
    as (w' & adv' & Hrun & Hw & _ & Hpl & _ & _ & _ & _ & Honly);
    [reflexivity|reflexivity|].
  exists w', adv'. split; [exact Hrun|]. split; [exact Hw|].
  rewrite (Honly eq_refl eq_refl). by rewrite Hpl.
Defined.

Lemma cancel_advert_spec_witness :
  ∃ w',
    cancel_advert 1 "AD001" (example_world "Approved" [1%positive])
    = Some (Ok (cancelled_ok "AD001"), w')
    ∧ w' = example_world "Cancelled" [1%positive]
    ∧ cancel_advert 1 "AD001" w' = Some (Ok (cancelled_ok "AD001"), w').
Proof.
  destruct (cancel_advert_spec (example_world "Approved" [1%positive]) 1 "AD001"
              (mkMarketing (mkStaff 100000 50000 "Marketing") {["AD001" := 1%positive]}))
    as [Hpresent _]; [reflexivity|].
  destruct (Hpresent 1%positive (AD001 "Approved"))
    as (w' & Hrun & Hw & _ & Hagain); [reflexivity|reflexivity|].
  exists w'. split; [exact Hrun|]. split; [|exact Hagain].
  rewrite Hw. reflexivity.
Defined.

Lemma update_advert_in_issue_published_witness :
  ∃ w' ed',
    update_advert_in_issue 1 1 "2025-03-01" (example_world "Published" [])
    = Some (Ok (), w')
    ∧ editor_objs w' !! 1%positive = Some ed'
    ∧ issue_of ed' "2025-03-01" = [1%positive]
    ∧ advert_objs w' !! 1%positive = Some (AD001 "Approved").
Proof.
  exact (update_advert_in_issue_published (example_world "Published" []) 1 1
           "2025-03-01" (AD001 "Published")
           (mkEditor (mkStaff 200000 60000 "Editing") {["2025-03-01" := []]})
           eq_refl eq_refl eq_refl (List.Forall_nil _)).
Defined.

(** * Further properties of the module *)

(** ** Editor: removing an advert from an issue *)

Lemma filter_out_id_live (objs : gmap addr Advert) (id : string) (issue : list addr) :
  Forall (live objs) issue →
  filter_out_id objs id issue = Some (others objs id issue).
Proof.
  unfold others.
  induction 1 as [|ad rest [a Ha] _ IH]; simpl; [done|].
  rewrite Ha, IH. simpl. f_equal.
  destruct (decide (advert_id a = id)) as [Heq|Hne].
  - rewrite bool_decide_eq_false_2 by (by intros []).
    rewrite filter_cons_False; [done|]. rewrite Ha. simpl. intros Hn. by apply Hn; f_equal.
  - rewrite bool_decide_eq_true_2 by done.
    rewrite filter_cons_True; [done|]. rewrite Ha. simpl. congruence.
Qed.

Lemma others_absent (objs : gmap addr Advert) (id : string) (issue : list addr) :
  id_absent objs id issue → others objs id issue = issue.
Proof.
  unfold others.
  induction 1 as [|ad rest (a & Ha & Hne) _ IH]; [done|].
  rewrite filter_cons_True; [by rewrite IH|].
  rewrite Ha. simpl. congruence.
Qed.

Lemma count_id_others (objs : gmap addr Advert) (id : string) (issue : list addr) :
  count_id objs id (others objs id issue) = 0.
Proof.
  unfold count_id, others. induction issue as [|ad rest IH]; [done|].
  destruct (decide (advert_id <$> objs !! ad = Some id)) as [Heq|Hne].
  - rewrite (filter_cons_False (λ ad, advert_id <$> objs !! ad ≠ Some id));
      [done|]. by intros Hn.
  - rewrite (filter_cons_True (λ ad, advert_id <$> objs !! ad ≠ Some id)) by done.
    rewrite (filter_cons_False (λ ad, advert_id <$> objs !! ad = Some id)); done.
Qed.

Lemma set_issue_same (issue_date : string) (issue : list addr) (ed : Editor) :
  magazine_issues ed !! issue_date = Some issue →
  set_issue issue_date issue ed = ed.
Proof.
  intros H. unfold set_issue. destruct ed as [base issues]; simpl in *.
  by rewrite insert_id.
Qed.

Lemma with_editor_objs_id (w : World) (a : addr) (ed : Editor) :
  editor_objs w !! a = Some ed → with_editor_objs (<[a := ed]>) w = w.
Proof.
  intros H. apply world_eq; try done. simpl. by apply insert_id.
Qed.

Lemma remove_advert_from_issue_ok (w : World) (self : addr) (id issue_date : string)
    (ed : Editor) (issue : list addr) :
  editor_objs w !! self = Some ed →
  magazine_issues ed !! issue_date = Some issue →
  Forall (live (advert_objs w)) issue →
  remove_advert_from_issue self id issue_date w
  = Some (Ok (), with_editor_objs
                   (<[self := set_issue issue_date (others (advert_objs w) id issue) ed]>)
                   w).
Proof.
  intros Hed Hissue Hlive. unfold remove_advert_from_issue.
  step ltac:(by apply get_editor_ok).
  rewrite Hissue.
  step ltac:(unfold without_id; by rewrite filter_out_id_live).
  by apply modify_editor_ok.
Qed.

(** X1. [remove_advert_from_issue] on an issue date the editor does not have
    raises and leaves the world as it was, whatever the advert id. *)
Theorem remove_advert_from_issue_unknown_date
    (w : World) (self : addr) (id issue_date : string) (ed : Editor) :
  editor_objs w !! self = Some ed →
  magazine_issues ed !! issue_date = None →
  remove_advert_from_issue self id issue_date w = Some (Raise issue_missing, w).
Proof.
  intros Hed Hissue. unfold remove_advert_from_issue.
  step ltac:(by apply get_editor_ok).
  by rewrite Hissue.
Qed.

(** X2. On a known issue date [remove_advert_from_issue] returns normally;
    the issue then consists of the entries with another id, in their old
    order, and holds the removed id zero times; the other issues of the
    editor, every advert object (status included) and the output are
    untouched. *)
Theorem remove_advert_from_issue_known
    (w : World) (self : addr) (id issue_date : string)
    (ed : Editor) (issue : list addr) :
  editor_objs w !! self = Some ed →
  magazine_issues ed !! issue_date = Some issue →
  Forall (live (advert_objs w)) issue →
  ∃ w' ed',
    remove_advert_from_issue self id issue_date w = Some (Ok (), w')
    ∧ editor_objs w' !! self = Some ed'
    ∧ magazine_issues ed' !! issue_date = Some (others (advert_objs w) id issue)
    ∧ count_id (advert_objs w') id (others (advert_objs w) id issue) = 0
    ∧ (∀ d, d ≠ issue_date → magazine_issues ed' !! d = magazine_issues ed !! d)
    ∧ advert_objs w' = advert_objs w
    ∧ stdout w' = stdout w.
Proof.
  intros Hed Hissue Hlive. eexists _, _.
  split; [by apply remove_advert_from_issue_ok|].
  split; [simpl; apply lookup_insert_eq|].
  split; [simpl; apply lookup_insert_eq|].
  split; [simpl; apply count_id_others|].
  split; [|done].
  intros d Hd. simpl. by rewrite lookup_insert_ne.
Qed.

(** X3. Removing an id that no advert of the issue carries is not an error
    and changes nothing at all. *)
Theorem remove_advert_from_issue_absent_id
    (w : World) (self : addr) (id issue_date : string)
    (ed : Editor) (issue : list addr) :
  editor_objs w !! self = Some ed →
  magazine_issues ed !! issue_date = Some issue →
  id_absent (advert_objs w) id issue →
  remove_advert_from_issue self id issue_date w = Some (Ok (), w).
Proof.
  intros Hed Hissue Habs.
  rewrite (remove_advert_from_issue_ok w self id issue_date ed issue); try done.
  - rewrite others_absent by done.
    rewrite set_issue_same by done. by rewrite with_editor_objs_id.
  - eapply Forall_impl; [exact Habs|]. intros ad (a & Ha & _). by exists a.
Qed.

(** ** How the stores see one another through the shared adverts *)

Lemma update_advert_in_issue_guard
    (w : World) (self advert : addr) (issue_date : string) (adv : Advert) :
  advert_objs w !! advert = Some adv →
  status adv = "Cancelled" →
  update_advert_in_issue self advert issue_date w = Some (Raise cancelled_msg, w).
Proof.
  intros Hadv Hst. unfold update_advert_in_issue.
  step ltac:(by apply get_advert_ok).
  by rewrite bool_decide_eq_true_2.
Qed.

Lemma store_advert_ok (w : World) (self advert : addr) (adv : Advert)
    (p : ProcessingCentreStaff) :
  advert_objs w !! advert = Some adv →
  status adv = "Approved" →
  processing_objs w !! self = Some p →
  store_advert self advert w = Some (Ok (), stored self advert adv p w).
Proof.
  intros Hadv Hst Hp. unfold store_advert.
  step ltac:(by apply get_advert_ok).
  rewrite bool_decide_eq_false_2 by (by intros []).
  step ltac:(by apply modify_processing_ok).
  done.
Qed.

Lemma store_advert_refused (w : World) (self advert : addr) (adv : Advert) :
  advert_objs w !! advert = Some adv →
  status adv ≠ "Approved" →
  store_advert self advert w = Some (Raise not_approved, w).
Proof.
  intros Hadv Hst. unfold store_advert.
  step ltac:(by apply get_advert_ok).
  by rewrite bool_decide_eq_true_2.
Qed.

Lemma id_absent_live (objs : gmap addr Advert) (id : string) (issue : list addr) :
  id_absent objs id issue → Forall (live objs) issue.
Proof.
  intros Habs. eapply Forall_impl; [exact Habs|].
  intros ad (a & Ha & _). by exists a.
Qed.

Lemma update_fields_self (a : Advert) :
  update_fields (Some (size a)) (Some (placement a)) (Some (publication_date a)) a = a.
Proof.
  destruct a as [i c s p d st]. unfold update_fields, merged. simpl.
  by destruct (truthy s), (truthy p), (truthy d).
Qed.

(** X4. Placing an advert in an issue and then removing its id from that
    issue gives the issue its old sequence back, but not the advert its old
    status: it stays "Approved". *)
Theorem place_then_remove
    (w : World) (self advert : addr) (issue_date : string) (adv : Advert) (ed : Editor) :
  advert_objs w !! advert = Some adv →
  status adv ≠ "Cancelled" →
  editor_objs w !! self = Some ed →
  id_absent (advert_objs w) (advert_id adv) (issue_of ed issue_date) →
  ∃ w1 w2 ed2,
    update_advert_in_issue self advert issue_date w = Some (Ok (), w1)
    ∧ remove_advert_from_issue self (advert_id adv) issue_date w1 = Some (Ok (), w2)
    ∧ editor_objs w2 !! self = Some ed2
    ∧ magazine_issues ed2 !! issue_date = Some (issue_of ed issue_date)
    ∧ advert_objs w2 !! advert = Some (set_status "Approved" adv).
Proof.
  intros Hadv Hst Hed Habs.
  pose proof (id_absent_promote _ _ _ _ Hadv Habs) as Habs1.
  eexists _, _, _. split.
  { apply update_advert_in_issue_append with (ed := ed); try done.
    by apply find_by_id_absent. }
  split.
  { apply remove_advert_from_issue_ok
      with (issue := (issue_of ed issue_date ++ [advert])%list).
    - simpl. apply lookup_insert_eq.
    - simpl. apply lookup_insert_eq.
    - simpl. apply Forall_app. split; [by eapply id_absent_live|].
      apply Forall_singleton. eexists. apply lookup_insert_eq. }
  split; [simpl; apply lookup_insert_eq|].
  split; [|simpl; apply lookup_insert_eq].
  simpl. rewrite lookup_insert_eq. f_equal.
  unfold others. rewrite filter_app.
  fold (others (<[advert:=set_status "Approved" adv]> (advert_objs w))
              (advert_id adv) (issue_of ed issue_date)).
  rewrite others_absent by done.
  rewrite filter_cons_False, filter_nil; [by rewrite app_nil_r|].
  rewrite lookup_insert_eq. simpl. by intros Hn.
Qed.

(** X5. Commands hold references: in the queue cancel "id", place the advert
    that the marketing store keeps under "id", the second command sees the
    cancellation made by the first and raises; the cancellation stays, no
    issue is touched and the queue is empty afterwards. *)
Theorem cancel_then_place_queue
    (w : World) (marketing_dept editor a : addr) (id issue_date : string)
    (me : MarketingDeptStaff) (adv : Advert) :
  marketing_objs w !! marketing_dept = Some me →
  adverts me !! id = Some a →
  advert_objs w !! a = Some adv →
  execute_commands
    (enqueue_all [CancelAdvertCommand marketing_dept id;
                  UpdateAdvertInIssueCommand editor a issue_date]) w
  = Some (Raise cancelled_msg, mkInvoker [], cancelled a adv w).
Proof.
  intros Hme Ha Hadv. unfold execute_commands.
  rewrite command_queue_enqueue_all. simpl.
  erewrite (bind_ok (cancel_advert marketing_dept id));
    [|by apply cancel_advert_present with (me := me)].
  simpl.
  erewrite (bind_raise (update_advert_in_issue editor a issue_date)); [done|].
  apply update_advert_in_issue_guard with (adv := set_status "Cancelled" adv); [|done].
  simpl. apply lookup_insert_eq.
Qed.

(** X6. An advert that [create_advert] has just made cannot be stored: it is
    "Pending", so [store_advert] raises, for every processing centre, and
    stores nothing. *)
Theorem created_advert_not_storable
    (w : World) (self processing_centre : addr) (me : MarketingDeptStaff)
    (id client size_arg placement_arg date_arg : string) :
  marketing_objs w !! self = Some me →
  ¬ create_rejects me id client size_arg placement_arg date_arg →
  ∃ a w1,
    create_advert self id client size_arg placement_arg date_arg w = Some (Ok a, w1)
    ∧ store_advert processing_centre a w1 = Some (Raise not_approved, w1).
Proof.
  intros Hme Hok.
  destruct (create_advert_cases w self me id client size_arg placement_arg date_arg Hme)
    as [[Hrej _]|[_ Hrun]]; [done|].
  eexists _, _. split; [exact Hrun|].
  eapply store_advert_refused; [simpl; apply lookup_insert_eq|done].
Qed.

(** X7. Once an editor has placed an advert in an issue, a processing centre
    can store it: the approval made through the editor is seen through the
    reference the processing centre is given. *)
Theorem placed_advert_storable
    (w : World) (editor processing_centre advert : addr) (issue_date : string)
    (adv : Advert) (ed : Editor) (p : ProcessingCentreStaff) :
  advert_objs w !! advert = Some adv →
  status adv ≠ "Cancelled" →
  editor_objs w !! editor = Some ed →
  id_absent (advert_objs w) (advert_id adv) (issue_of ed issue_date) →
  processing_objs w !! processing_centre = Some p →
  ∃ w1 w2 p2,
    update_advert_in_issue editor advert issue_date w = Some (Ok (), w1)
    ∧ store_advert processing_centre advert w1 = Some (Ok (), w2)
    ∧ processing_objs w2 !! processing_centre = Some p2
    ∧ stored_adverts p2 = (stored_adverts p ++ [advert])%list.
Proof.
  intros Hadv Hst Hed Habs Hp. eexists _, _, _. split.
  { apply update_advert_in_issue_append with (ed := ed); try done.
    by apply find_by_id_absent. }
  split.
  { apply store_advert_ok with (adv := set_status "Approved" adv) (p := p);
      [simpl; apply lookup_insert_eq|done|done]. }
  split; [simpl; apply lookup_insert_eq|done].
Qed.

(** X8. Storing does not freeze an advert: a stored advert can still be
    cancelled through the marketing store, and the processing centre then
    holds a "Cancelled" advert in its stored sequence. *)
Theorem stored_advert_can_be_cancelled
    (w : World) (marketing_dept processing_centre a : addr) (id : string)
    (me : MarketingDeptStaff) (adv : Advert) (p : ProcessingCentreStaff) :
  marketing_objs w !! marketing_dept = Some me →
  adverts me !! id = Some a →
  advert_objs w !! a = Some adv →
  status adv = "Approved" →
  processing_objs w !! processing_centre = Some p →
  ∃ w1 w2 p2,
    store_advert processing_centre a w = Some (Ok (), w1)
    ∧ cancel_advert marketing_dept id w1 = Some (Ok (cancelled_ok id), w2)
    ∧ processing_objs w2 !! processing_centre = Some p2
    ∧ a ∈ stored_adverts p2
    ∧ status <$> advert_objs w2 !! a = Some "Cancelled".
Proof.
  intros Hme Ha Hadv Hst Hp. eexists _, _, _.
  split; [by apply store_advert_ok|].
  split; [by apply cancel_advert_present with (me := me) (adv := adv)|].
  split; [simpl; apply lookup_insert_eq|].
  split; [simpl; set_solver|].
  simpl. by rewrite lookup_insert_eq.
Qed.

(** X9. Placing the same advert twice in the same issue does not duplicate
    it: the second call takes the merge path, which leaves the issue and
    every advert as the first call left them. *)
Theorem place_twice
    (w : World) (self advert : addr) (issue_date : string) (adv : Advert) (ed : Editor) :
  advert_objs w !! advert = Some adv →
  status adv ≠ "Cancelled" →
  editor_objs w !! self = Some ed →
  id_absent (advert_objs w) (advert_id adv) (issue_of ed issue_date) →
  ∃ w1 w2 ed2,
    update_advert_in_issue self advert issue_date w = Some (Ok (), w1)
    ∧ update_advert_in_issue self advert issue_date w1 = Some (Ok (), w2)
    ∧ editor_objs w2 = editor_objs w1
    ∧ advert_objs w2 = advert_objs w1
    ∧ editor_objs w2 !! self = Some ed2
    ∧ issue_of ed2 issue_date = (issue_of ed issue_date ++ [advert])%list.
Proof.
  intros Hadv Hst Hed Habs.
  pose proof (id_absent_promote _ _ _ _ Hadv Habs) as Habs1.
  eexists _, _, _. split.
  { apply update_advert_in_issue_append with (ed := ed); try done.
    by apply find_by_id_absent. }
  split.
  { apply update_advert_in_issue_merge
      with (adv := set_status "Approved" adv) (exa := set_status "Approved" adv)
           (ed := set_issue issue_date (issue_of ed issue_date ++ [advert])%list ed).
    - simpl. apply lookup_insert_eq.
    - done.
    - simpl. apply lookup_insert_eq.
    - rewrite issue_of_set_issue. simpl.
      apply find_by_id_first with (exa := set_status "Approved" adv);
        [done|apply lookup_insert_eq|done].
    - simpl. apply lookup_insert_eq. }
  split; [done|]. split.
  { unfold merged_into, appended, with_stdout, with_advert_objs.
    cbn [advert_objs]. rewrite update_fields_self.
    apply insert_id, lookup_insert_eq. }
  split; [simpl; apply lookup_insert_eq|].
  apply issue_of_set_issue.
Qed.

(** ** Staff ids: which are accepted, how they are released *)

(** X10. [ITMagazineStaff.__init__] accepts an [int] id exactly when it lies
    in 100000..999999 or in -99999..-10000, the salary lies in
    10000..1000000, the department is one of the three names and the id is
    not registered; it then registers the id and sets the three attributes;
    in every other case it raises and the world is unchanged. *)
Theorem ITMagazineStaff_init_accepts (w : World) (z salary : Z) (dept : string) :
  let accepted :=
    ((100000 ≤ z ≤ 999999 ∨ -99999 ≤ z ≤ -10000)
     ∧ 10000 ≤ salary ≤ 1000000)%Z
    ∧ dept ∈ ["Marketing"; "Editing"; "Processing Centre"]
    ∧ z ∉ used_staff_ids w in
  (accepted →
   ITMagazineStaff_init (PyInt z) salary dept w
   = Some (Ok (mkStaff z salary dept), registered z w))
  ∧ (¬ accepted →
     ∃ e, ITMagazineStaff_init (PyInt z) salary dept w = Some (Raise e, w)).
Proof.
  intros accepted.
  assert (accepted ↔ staff_accepted w z salary dept) as Hiff.
  { unfold accepted, staff_accepted. rewrite len_str_6. tauto. }
  destruct (ITMagazineStaff_init_int w z salary dept) as [[Hacc Hok]|[Hno Hraise]].
  - split; [done|]. intros Hn. by apply Hiff in Hacc.
  - split; [|done]. intros Hacc. by apply Hiff in Hacc.
Qed.

(** X11. A registered id is refused until it is released: after a successful
    construction a second one with the same id raises and changes nothing;
    [__del__] of the first object (through [remove_staff_id]) gives the
    registry its old content back, and the id is accepted again. *)
Theorem staff_id_release_reuse (w : World) (z salary : Z) (dept : string) :
  staff_accepted w z salary dept →
  ∃ s w1 w2 s' w3,
    ITMagazineStaff_init (PyInt z) salary dept w = Some (Ok s, w1)
    ∧ (∀ salary' dept',
         ∃ e, ITMagazineStaff_init (PyInt z) salary' dept' w1 = Some (Raise e, w1))
    ∧ ITMagazineStaff_del (Some (staff_id s)) w1 = Some (Ok (), w2)
    ∧ w2 = w
    ∧ ITMagazineStaff_init (PyInt z) salary dept w2 = Some (Ok s', w3).
Proof.
  intros Hacc.
  destruct (ITMagazineStaff_init_int w z salary dept) as [[_ Hok]|[Hno _]]; [|done].
  assert (with_used_staff_ids (λ ids, ids ∖ {[z]}) (registered z w) = w) as Hback.
  { destruct Hacc as (_ & _ & _ & Hfree).
    apply world_eq; try done. simpl. apply set_eq. intros x.
    rewrite elem_of_difference, elem_of_union, elem_of_singleton.
    split; [by intros [[->|?] ?]|]. intros Hx. split; [by right|]. by intros ->. }
  eexists _, _, _, _, _. split; [exact Hok|].
  split.
  { intros salary' dept'. apply ITMagazineStaff_init_duplicate. simpl.
    apply elem_of_union_l. by apply elem_of_singleton. }
  split; [reflexivity|]. split; [exact Hback|].
  simpl. rewrite Hback. exact Hok.
Qed.

Lemma staff_id_release_reuse_witness :
  ∃ s w1 w2 s' w3,
    ITMagazineStaff_init (PyInt 100001) 55000 "Marketing" fresh_world = Some (Ok s, w1)
    ∧ (∀ salary' dept',
         ∃ e, ITMagazineStaff_init (PyInt 100001) salary' dept' w1 = Some (Raise e, w1))
    ∧ ITMagazineStaff_del (Some (staff_id s)) w1 = Some (Ok (), w2)
    ∧ w2 = fresh_world
    ∧ ITMagazineStaff_init (PyInt 100001) 55000 "Marketing" w2 = Some (Ok s', w3).
Proof.
  apply (staff_id_release_reuse fresh_world 100001 55000 "Marketing").
  unfold staff_accepted. split; [reflexivity|]. split; [lia|].
  split; [set_solver|]. vm_compute. intros H. discriminate H.
Defined.

(** X12. The constructors of the three subclasses run the checks of the base
    class and nothing more: with accepted arguments each returns a new object
    with an empty store and registers the id, whichever of the three
    departments is named; with refused arguments each raises, and no object
    exists and no id is registered that was not before. *)
Theorem subclass_constructors (w : World) (z salary : Z) (dept : string) :
  (staff_accepted w z salary dept →
   ∃ m e p,
     MarketingDeptStaff_init (PyInt z) salary dept w
     = Some (Ok m, with_marketing_objs (<[m := mkMarketing (mkStaff z salary dept) ∅]>)
                     (registered z w))
     ∧ marketing_objs w !! m = None
     ∧ Editor_init (PyInt z) salary dept w
       = Some (Ok e, with_editor_objs (<[e := mkEditor (mkStaff z salary dept) ∅]>)
                       (registered z w))
     ∧ editor_objs w !! e = None
     ∧ ProcessingCentreStaff_init (PyInt z) salary dept w
       = Some (Ok p, with_processing_objs
                       (<[p := mkProcessing (mkStaff z salary dept) []]>)
                       (registered z w))
     ∧ processing_objs w !! p = None)
  ∧ (¬ staff_accepted w z salary dept →
     ∃ err,
       MarketingDeptStaff_init (PyInt z) salary dept w = Some (Raise err, w)
       ∧ Editor_init (PyInt z) salary dept w = Some (Raise err, w)
       ∧ ProcessingCentreStaff_init (PyInt z) salary dept w = Some (Raise err, w)).
Proof.
  destruct (ITMagazineStaff_init_int w z salary dept)
    as [[Hacc Hok]|[Hno [err Hraise]]].
  - split; [|done]. intros _.
    exists (fresh (dom (marketing_objs w))), (fresh (dom (editor_objs w))),
           (fresh (dom (processing_objs w))).
    unfold MarketingDeptStaff_init, Editor_init, ProcessingCentreStaff_init.
    rewrite !(bind_ok _ _ _ _ _ Hok).
    repeat split; try done; apply not_elem_of_dom, is_fresh.
  - split; [done|]. intros _. exists err.
    unfold MarketingDeptStaff_init, Editor_init, ProcessingCentreStaff_init.
    by rewrite !(bind_raise _ _ _ _ _ Hraise).
Qed.

Lemma subclass_constructors_witness :
  ∃ m w', MarketingDeptStaff_init (PyInt 100001) 55000 "Editing" fresh_world
          = Some (Ok m, w')
          ∧ marketing_objs fresh_world !! m = None.
Proof.
  destruct (subclass_constructors fresh_world 100001 55000 "Editing") as [Hacc _].
  destruct Hacc as (m & e & p & Hm & Hfresh & _).
  - unfold staff_accepted. split; [reflexivity|]. split; [lia|].
    split; [set_solver|]. vm_compute. intros H. discriminate H.
  - eexists m, _. split; [exact Hm|exact Hfresh].
Defined.

(** ** The invoker: every completed run, and running again *)

Lemma runs_ok_length (w w' : World) (cmds : list Command) (rs : list PyResult) :
  runs_ok w cmds rs w' → length rs = length cmds.
Proof. induction 1; simpl; congruence. Qed.

(** Every completed run of the loop is a run of all commands, or a run of a
    prefix followed by a command that raised. *)
Lemma run_queue_inv (queue : list Command) (acc : list PyResult) (w w' : World)
    (r : Result (list PyResult)) (inv' : CommandInvoker) :
  run_queue queue acc w = Some (r, inv', w') →
  (∃ rs, r = Ok (acc ++ rs)%list ∧ inv' = mkInvoker [] ∧ runs_ok w queue rs w')
  ∨ (∃ e pre cmd rs,
       r = Raise e
       ∧ queue = (pre ++ cmd :: command_queue inv')%list
       ∧ runs_ok w pre rs w'
       ∧ execute cmd w' = Some (Raise e, w')).
Proof.
  revert acc w. induction queue as [|c queue IH]; intros acc w; simpl.
  - intros [= <- <- <-]. left. exists []. rewrite app_nil_r.
    split; [done|]. split; [done|]. apply runs_ok_nil.
  - destruct (execute c w) as [[[res|e] w1]|] eqn:Hc; [| |done].
    + intros Hrun. apply IH in Hrun as [(rs & -> & -> & Hruns)|Hraise].
      * left. exists (res :: rs). rewrite <-(assoc_L (++)).
        split; [done|]. split; [done|]. by eapply runs_ok_cons.
      * destruct Hraise as (e & pre & cmd & rs & -> & -> & Hruns & Hcmd).
        right. exists e, (c :: pre), cmd, (res :: rs).
        split; [done|]. split; [done|]. split; [by eapply runs_ok_cons|done].
    + intros [= <- <- <-].
      pose proof (execute_raise_unchanged c w e w1 Hc) as ->.
      right. exists e, [], c, []. split; [done|]. split; [done|].
      split; [apply runs_ok_nil|done].
Qed.

(** X13. Whenever [execute_commands] completes on a queue that is not empty,
    either it returns, and then every command ran in queue order, there is
    one result per command and the queue is empty; or it raises, and then
    the commands before the failing one ran in order, the failing one left
    the world as it found it, and the queue holds exactly the commands after
    it. *)
Theorem execute_commands_outcome
    (queue : list Command) (w w' : World)
    (r : Result (list PyResult)) (inv' : CommandInvoker) :
  queue ≠ [] →
  execute_commands (mkInvoker queue) w = Some (r, inv', w') →
  (∃ rs, r = Ok rs ∧ inv' = mkInvoker [] ∧ runs_ok w queue rs w'
         ∧ length rs = length queue)
  ∨ (∃ e pre cmd rs,
       r = Raise e
       ∧ queue = (pre ++ cmd :: command_queue inv')%list
       ∧ runs_ok w pre rs w'
       ∧ execute cmd w' = Some (Raise e, w')).
Proof.
  intros Hne. unfold execute_commands. simpl.
  destruct queue as [|c queue]; [done|]. cbn [length Nat.eqb].
  intros [(rs & -> & -> & Hruns)|Hraise]%run_queue_inv.
  - left. exists rs. split; [done|]. split; [done|]. split; [done|].
    exact (runs_ok_length _ _ _ _ Hruns).
  - by right.
Qed.

Lemma execute_commands_outcome_witness :
  ∃ pre cmd w1,
    [create_AD001; cancel_AD999; update_AD001] = (pre ++ cmd :: [update_AD001])%list
    ∧ execute cmd w1 = Some (Raise not_found, w1).
Proof.
  destruct (execute_commands_outcome [create_AD001; cancel_AD999; update_AD001]
              fresh_world
              (created 1 1 (mkMarketing (mkStaff 100000 50000 "Marketing") ∅)
                 "AD001" "Client A" "Full Page" "Back Cover" "2025-01-15" fresh_world)
              (Raise not_found) (mkInvoker [update_AD001]))
    as [(rs & Hr & _)|(e & pre & cmd & rs & He & Hq & _ & Hc)].
  - discriminate.
  - reflexivity.
  - discriminate Hr.
  - injection He as <-. eexists pre, cmd, _. split; [exact Hq|exact Hc].
Defined.

(** X14. After a failed run, running the invoker again executes the commands
    that were queued behind the failing one, in order, from the world the
    failed run left; the failing command is not retried. *)
Theorem execute_commands_resume
    (pre post : list Command) (cmd : Command) (rs rs2 : list PyResult)
    (w w1 w2 w3 : World) (e : exn) :
  runs_ok w pre rs w1 →
  execute cmd w1 = Some (Raise e, w2) →
  post ≠ [] →
  runs_ok w1 post rs2 w3 →
  ∃ inv1,
    execute_commands (enqueue_all (pre ++ cmd :: post)) w = Some (Raise e, inv1, w1)
    ∧ execute_commands inv1 w1 = Some (Ok rs2, mkInvoker [], w3).
Proof.
  intros Hpre Hcmd Hne Hpost.
  pose proof (execute_raise_unchanged cmd w1 e w2 Hcmd) as ->.
  exists (mkInvoker post). split.
  - unfold execute_commands. rewrite command_queue_enqueue_all.
    replace (length (pre ++ cmd :: post) =? 0)%nat with false
      by (symmetry; apply Nat.eqb_neq; rewrite length_app; simpl; lia).
    rewrite (run_queue_prefix pre _ [] rs w w1 Hpre). simpl. by rewrite Hcmd.
  - unfold execute_commands. simpl.
    destruct post as [|c post]; [done|]. cbn [length Nat.eqb].
    rewrite <-(app_nil_r (c :: post)).
    by rewrite (run_queue_prefix (c :: post) [] [] rs2 w1 w3 Hpost).
Qed.

Lemma execute_commands_resume_witness :
  ∃ inv1 w1 w3,
    execute_commands (enqueue_all [create_AD001; cancel_AD999; update_AD001]) fresh_world
    = Some (Raise not_found, inv1, w1)
    ∧ execute_commands inv1 w1
      = Some (Ok [RStr "Advert AD001 updated successfully."], mkInvoker [], w3).
Proof.
  destruct (execute_commands_resume [create_AD001] [update_AD001] cancel_AD999
              [RAdvert 1] [RStr "Advert AD001 updated successfully."]
              fresh_world
              (created 1 1 (mkMarketing (mkStaff 100000 50000 "Marketing") ∅)
                 "AD001" "Client A" "Full Page" "Back Cover" "2025-01-15" fresh_world)
              (created 1 1 (mkMarketing (mkStaff 100000 50000 "Marketing") ∅)
                 "AD001" "Client A" "Full Page" "Back Cover" "2025-01-15" fresh_world)
              (with_advert_objs
                 (<[1%positive := set_placement "Front Cover" (AD001 "Pending")]>)
                 (created 1 1 (mkMarketing (mkStaff 100000 50000 "Marketing") ∅)
                    "AD001" "Client A" "Full Page" "Back Cover" "2025-01-15"
                    fresh_world))
              not_found) as (inv1 & H1 & H2).
  - eapply runs_ok_cons; [reflexivity|apply runs_ok_nil].
  - reflexivity.
  - discriminate.
  - eapply runs_ok_cons; [reflexivity|apply runs_ok_nil].
  - eexists inv1, _, _. split; [exact H1|exact H2].
Defined.

(** ** Marketing store: ids are unique, updates compose *)

(** X15. An advert id can be created once in a store: after a successful
    [create_advert] every further [create_advert] with the same id raises,
    whatever the other arguments, and changes nothing. *)
Theorem create_advert_twice
    (w : World) (self : addr) (me : MarketingDeptStaff)
    (id client size_arg placement_arg date_arg : string) :
  marketing_objs w !! self = Some me →
  ¬ create_rejects me id client size_arg placement_arg date_arg →
  ∃ a w1,
    create_advert self id client size_arg placement_arg date_arg w = Some (Ok a, w1)
    ∧ ∀ client' size' placement' date',
        ∃ e, create_advert self id client' size' placement' date' w1
             = Some (Raise e, w1).
Proof.
  intros Hme Hok.
  destruct (create_advert_cases w self me id client size_arg placement_arg date_arg Hme)
    as [[Hrej _]|[_ Hrun]]; [done|].
  eexists _, _. split; [exact Hrun|].
  intros client' size' placement' date'.
  destruct (create_advert_cases
              (created self (fresh (dom (advert_objs w))) me id client size_arg
                       placement_arg date_arg w)
              self
              (mkMarketing (marketing_base me)
                           (<[id := fresh (dom (advert_objs w))]> (adverts me)))
              id client' size' placement' date')
    as [[_ Hraise]|[Hno _]]; [simpl; apply lookup_insert_eq|exact Hraise|].
  exfalso. apply Hno. unfold create_rejects. simpl.
  do 5 right. rewrite lookup_insert_eq. by eexists.
Qed.

(** X16. The advert that [create_advert] returns is the one the store finds
    under the id: an [update_advert] on that id right after the creation
    changes the returned advert, which keeps its id, its client and the
    status "Pending". *)
Theorem create_then_update
    (w : World) (self : addr) (me : MarketingDeptStaff)
    (id client size_arg placement_arg date_arg : string)
    (size' placement' date' : option string) :
  marketing_objs w !! self = Some me →
  ¬ create_rejects me id client size_arg placement_arg date_arg →
  ∃ a w1 w2,
    create_advert self id client size_arg placement_arg date_arg w = Some (Ok a, w1)
    ∧ update_advert self id size' placement' date' w1 = Some (Ok (updated_ok id), w2)
    ∧ advert_objs w2 !! a
      = Some (mkAdvert id client
                       (merged size' size_arg)
                       (merged placement' placement_arg)
                       (merged date' date_arg)
                       "Pending").
Proof.
  intros Hme Hok.
  destruct (create_advert_cases w self me id client size_arg placement_arg date_arg Hme)
    as [[Hrej _]|[_ Hrun]]; [done|].
  eexists _, _, _. split; [exact Hrun|]. split.
  - eapply update_advert_present; simpl.
    + apply lookup_insert_eq.
    + simpl. apply lookup_insert_eq.
    + apply lookup_insert_eq.
  - simpl. by rewrite lookup_insert_eq.
Qed.

Lemma merged_twice (arg : option string) (old : string) :
  merged arg (merged arg old) = merged arg old.
Proof. unfold merged. destruct arg as [v|]; [|done]. by destruct (truthy v). Qed.

(** X17. [update_advert] is idempotent: the same update applied a second
    time returns the same message and leaves the world of the first. *)
Theorem update_advert_idempotent
    (w : World) (self a : addr) (id : string) (size_arg placement_arg date_arg : option string)
    (me : MarketingDeptStaff) (adv : Advert) :
  marketing_objs w !! self = Some me →
  adverts me !! id = Some a →
  advert_objs w !! a = Some adv →
  ∃ w1,
    update_advert self id size_arg placement_arg date_arg w
    = Some (Ok (updated_ok id), w1)
    ∧ update_advert self id size_arg placement_arg date_arg w1
      = Some (Ok (updated_ok id), w1).
Proof.
  intros Hme Ha Hadv. eexists. split.
  - by apply update_advert_present with (me := me).
  - erewrite update_advert_present with (me := me);
      [|done|done|simpl; apply lookup_insert_eq].
    rewrite with_advert_objs_twice. unfold update_fields. simpl.
    by rewrite !merged_twice.
Qed.

(** X18. [update_advert] does not look at the status: a cancelled advert can
    still be given a new size, placement and date, and it stays
    "Cancelled". *)
Theorem cancel_then_update
    (w : World) (self a : addr) (id : string) (size_arg placement_arg date_arg : option string)
    (me : MarketingDeptStaff) (adv : Advert) :
  marketing_objs w !! self = Some me →
  adverts me !! id = Some a →
  advert_objs w !! a = Some adv →
  ∃ w1 w2,
    cancel_advert self id w = Some (Ok (cancelled_ok id), w1)
    ∧ update_advert self id size_arg placement_arg date_arg w1
      = Some (Ok (updated_ok id), w2)
    ∧ advert_objs w2 !! a
      = Some (set_status "Cancelled" (update_fields size_arg placement_arg date_arg adv)).
Proof.
  intros Hme Ha Hadv. eexists _, _. split.
  - by apply cancel_advert_present with (me := me) (adv := adv).
  - split.
    + apply update_advert_present with (me := me); [done|done|].
      simpl. apply lookup_insert_eq.
    + simpl. by rewrite lookup_insert_eq.
Qed.

(** ** What every command keeps *)

Lemma live_id_of (objs : gmap addr Advert) (a : addr) :
  live objs a ↔ is_Some (id_of objs a).
Proof. unfold live, id_of. by rewrite fmap_is_Some. Qed.

Lemma wf_with_stdout (f : list string → list string) (w : World) :
  wf w → wf (with_stdout f w).
Proof. intros [Hm Hi Hs]. by constructor. Qed.

(** Changing the advert objects keeps the stores well formed as long as
    every advert that existed keeps its id. *)
Lemma wf_with_advert_objs (f : gmap addr Advert → gmap addr Advert) (w : World) :
  wf w →
  (∀ x i, id_of (advert_objs w) x = Some i → id_of (f (advert_objs w)) x = Some i) →
  wf (with_advert_objs f w).
Proof.
  intros [Hm Hi Hs] Hext.
  assert (∀ l, Forall (live (advert_objs w)) l →
            Forall (live (f (advert_objs w))) l) as Hlive.
  { intros l Hl. eapply Forall_impl; [exact Hl|]. intros x [i Hx]%live_id_of.
    apply live_id_of. rewrite (Hext x i Hx). by eexists. }
  constructor; simpl.
  - intros self me id a Hme Ha. apply Hext. by eapply Hm.
  - intros self ed issue_date issue Hed Hissue.
    destruct (Hi self ed issue_date issue Hed Hissue) as [Hl Hnd].
    split; [by apply Hlive|].
    replace (id_of (f (advert_objs w)) <$> issue)
      with (id_of (advert_objs w) <$> issue); [done|].
    apply Forall_fmap_ext. eapply Forall_impl; [exact Hl|].
    intros x [i Hx]%live_id_of. simpl. by rewrite (Hext x i Hx).
  - intros self p Hp. apply Hlive. by eapply Hs.
Qed.

Lemma wf_modify_advert (w : World) (a : addr) (adv adv' : Advert) :
  wf w →
  advert_objs w !! a = Some adv →
  advert_id adv' = advert_id adv →
  wf (with_advert_objs (<[a := adv']>) w).
Proof.
  intros Hwf Ha Hid. apply wf_with_advert_objs; [done|].
  intros x i. unfold id_of. destruct (decide (x = a)) as [->|Hne].
  - rewrite lookup_insert_eq, Ha. simpl. congruence.
  - by rewrite lookup_insert_ne.
Qed.

Lemma wf_new_advert (w : World) (a : addr) (v : Advert) :
  wf w →
  advert_objs w !! a = None →
  wf (with_advert_objs (<[a := v]>) w).
Proof.
  intros Hwf Ha. apply wf_with_advert_objs; [done|].
  intros x i. unfold id_of. destruct (decide (x = a)) as [->|Hne].
  - by rewrite Ha.
  - by rewrite lookup_insert_ne.
Qed.

Lemma wf_marketing_insert (w : World) (self a : addr) (id : string)
    (me : MarketingDeptStaff) :
  wf w →
  marketing_objs w !! self = Some me →
  id_of (advert_objs w) a = Some id →
  wf (with_marketing_objs
        (<[self := mkMarketing (marketing_base me) (<[id := a]> (adverts me))]>) w).
Proof.
  intros [Hm Hi Hs] Hme Ha.
  constructor; simpl; [|done|done].
  intros self' me' id' a'.
  destruct (decide (self' = self)) as [->|Hne].
  - rewrite lookup_insert_eq. intros [= <-]. simpl.
    destruct (decide (id' = id)) as [->|Hne'].
    + rewrite lookup_insert_eq. by intros [= <-].
    + rewrite lookup_insert_ne by done. by apply Hm with (self := self).
  - rewrite lookup_insert_ne by done. apply Hm.
Qed.

Lemma wf_set_issue (w : World) (self : addr) (issue_date : string)
    (issue : list addr) (ed : Editor) :
  wf w →
  editor_objs w !! self = Some ed →
  Forall (live (advert_objs w)) issue →
  NoDup (id_of (advert_objs w) <$> issue) →
  wf (with_editor_objs (<[self := set_issue issue_date issue ed]>) w).
Proof.
  intros [Hm Hi Hs] Hed Hl Hnd. constructor; simpl; [done| |done].
  intros self' ed' date' issue'.
  destruct (decide (self' = self)) as [->|Hne].
  - rewrite lookup_insert_eq. intros [= <-]. simpl.
    destruct (decide (date' = issue_date)) as [->|Hne'].
    + rewrite lookup_insert_eq. by intros [= <-].
    + rewrite lookup_insert_ne by done. by apply Hi with (self := self).
  - rewrite lookup_insert_ne by done. apply Hi.
Qed.

Lemma wf_store (w : World) (self advert : addr) (p : ProcessingCentreStaff) :
  wf w →
  processing_objs w !! self = Some p →
  live (advert_objs w) advert →
  wf (with_processing_objs
        (<[self := mkProcessing (processing_base p)
                                (stored_adverts p ++ [advert])%list]>) w).
Proof.
  intros [Hm Hi Hs] Hp Hl. constructor; simpl; [done|done|].
  intros self' p'.
  destruct (decide (self' = self)) as [->|Hne].
  - rewrite lookup_insert_eq. intros [= <-]. simpl.
    apply Forall_app. split; [by eapply Hs|by apply Forall_singleton].
  - rewrite lookup_insert_ne by done. apply Hs.
Qed.

Lemma evolves_refl (w : World) : evolves w w.
Proof. repeat split; eauto 10. Qed.

Lemma evolves_trans (w1 w2 w3 : World) :
  evolves w1 w2 → evolves w2 w3 → evolves w1 w3.
Proof.
  intros (Ha & Hm & He & Hp & Hu) (Ha' & Hm' & He' & Hp' & Hu').
  split; [|split; [|split; [|split]]].
  - intros a adv Hadv.
    destruct (Ha a adv Hadv) as (adv1 & H1 & Hid & Hcl & Hst).
    destruct (Ha' a adv1 H1) as (adv2 & H2 & Hid' & Hcl' & Hst').
    exists adv2. repeat split; [done|congruence|congruence|auto].
  - intros a me Hme. destruct (Hm a me Hme) as (me1 & H1 & Hb).
    destruct (Hm' a me1 H1) as (me2 & H2 & Hb'). exists me2. split; congruence.
  - intros a ed Hed. destruct (He a ed Hed) as (ed1 & H1 & Hb).
    destruct (He' a ed1 H1) as (ed2 & H2 & Hb'). exists ed2. split; congruence.
  - intros a p Hpa. destruct (Hp a p Hpa) as (p1 & H1 & Hb).
    destruct (Hp' a p1 H1) as (p2 & H2 & Hb'). exists p2. split; congruence.
  - congruence.
Qed.

Lemma evolves_stdout (f : list string → list string) (w : World) :
  evolves w (with_stdout f w).
Proof. unfold evolves. simpl. split_and!; eauto 10. Qed.

Lemma evolves_modify_advert (w : World) (a : addr) (adv adv' : Advert) :
  advert_objs w !! a = Some adv →
  advert_id adv' = advert_id adv →
  client_name adv' = client_name adv →
  (status adv = "Cancelled" → status adv' = "Cancelled") →
  evolves w (with_advert_objs (<[a := adv']>) w).
Proof.
  intros Ha Hid Hcl Hst. unfold evolves. simpl. split_and!; eauto.
  intros x v Hx. destruct (decide (x = a)) as [->|Hne].
  - rewrite lookup_insert_eq. exists adv'. rewrite Ha in Hx. by injection Hx as <-.
  - rewrite lookup_insert_ne by done. eauto 10.
Qed.

Lemma evolves_new_advert (w : World) (a : addr) (v : Advert) :
  advert_objs w !! a = None →
  evolves w (with_advert_objs (<[a := v]>) w).
Proof.
  intros Ha. unfold evolves. simpl. split_and!; eauto.
  intros x adv Hx. rewrite lookup_insert_ne by congruence. eauto 10.
Qed.

Lemma evolves_marketing (w : World) (self : addr) (me me' : MarketingDeptStaff) :
  marketing_objs w !! self = Some me →
  marketing_base me' = marketing_base me →
  evolves w (with_marketing_objs (<[self := me']>) w).
Proof.
  intros Hme Hb. unfold evolves. simpl. split_and!; eauto 10.
  intros x v Hx. destruct (decide (x = self)) as [->|Hne].
  - rewrite lookup_insert_eq. exists me'. split; congruence.
  - rewrite lookup_insert_ne by done. eauto.
Qed.

Lemma evolves_editor (w : World) (self : addr) (ed ed' : Editor) :
  editor_objs w !! self = Some ed →
  editor_base ed' = editor_base ed →
  evolves w (with_editor_objs (<[self := ed']>) w).
Proof.
  intros Hed Hb. unfold evolves. simpl. split_and!; eauto 10.
  intros x v Hx. destruct (decide (x = self)) as [->|Hne].
  - rewrite lookup_insert_eq. exists ed'. split; congruence.
  - rewrite lookup_insert_ne by done. eauto.
Qed.

Lemma evolves_processing (w : World) (self : addr) (p p' : ProcessingCentreStaff) :
  processing_objs w !! self = Some p →
  processing_base p' = processing_base p →
  evolves w (with_processing_objs (<[self := p']>) w).
Proof.
  intros Hp Hb. unfold evolves. simpl. split_and!; eauto 10.
  intros x v Hx. destruct (decide (x = self)) as [->|Hne].
  - rewrite lookup_insert_eq. exists p'. split; congruence.
  - rewrite lookup_insert_ne by done. eauto.
Qed.

Lemma command_live_evolves (w w' : World) (c : Command) :
  evolves w w' → command_live w c → command_live w' c.
Proof.
  intros (Ha & Hm & He & Hp & _).
  assert (∀ a, live (advert_objs w) a → live (advert_objs w') a) as Hlive.
  { intros a [adv Hadv]. destruct (Ha a adv Hadv) as (adv' & H' & _). by exists adv'. }
  assert (∀ a, is_Some (marketing_objs w !! a) → is_Some (marketing_objs w' !! a)) as Hm'.
  { intros a [v Hv]. destruct (Hm a v Hv) as (v' & H' & _). by exists v'. }
  assert (∀ a, is_Some (editor_objs w !! a) → is_Some (editor_objs w' !! a)) as He'.
  { intros a [v Hv]. destruct (He a v Hv) as (v' & H' & _). by exists v'. }
  assert (∀ a, is_Some (processing_objs w !! a) → is_Some (processing_objs w' !! a)) as Hp'.
  { intros a [v Hv]. destruct (Hp a v Hv) as (v' & H' & _). by exists v'. }
  destruct c; simpl; first [intros [? ?]; split; auto|auto].
Qed.

Lemma NoDup_fmap_filter {A B} (f : A → B) (P : A → Prop) `{!∀ x, Decision (P x)}
    (l : list A) :
  NoDup (f <$> l) → NoDup (f <$> filter P l).
Proof.
  induction l as [|x l IH]; [done|]. rewrite fmap_cons, NoDup_cons.
  intros [Hx Hnd]. destruct (decide (P x)) as [HP|HP].
  - rewrite filter_cons_True by done. rewrite fmap_cons, NoDup_cons.
    split; [|by apply IH].
    intros (y & Hy & [_ Hin]%list_elem_of_filter)%list_elem_of_fmap.
    apply Hx, list_elem_of_fmap. by exists y.
  - rewrite filter_cons_False by done. by apply IH.
Qed.

Lemma Forall_others (objs : gmap addr Advert) (id : string) (issue : list addr) :
  Forall (live objs) issue → Forall (live objs) (others objs id issue).
Proof.
  rewrite !Forall_forall. intros H x [_ Hx]%list_elem_of_filter. by apply H.
Qed.

(** Under liveness the search of an issue for an id has two outcomes. *)
Lemma find_by_id_cases (objs : gmap addr Advert) (id : string) (issue : list addr) :
  Forall (live objs) issue →
  id_absent objs id issue
  ∨ ∃ before ex after exa,
      issue = (before ++ ex :: after)%list
      ∧ id_absent objs id before
      ∧ objs !! ex = Some exa
      ∧ advert_id exa = id.
Proof.
  induction 1 as [|ad rest [a Ha] _ IH]; [left; constructor|].
  destruct (decide (advert_id a = id)) as [Heq|Hne].
  - right. exists [], ad, rest, a. repeat split; [constructor|done|done].
  - destruct IH as [Habs|(before & ex & after & exa & -> & Hb & Hex & Hid)].
    + left. constructor; [by exists a|done].
    + right. exists (ad :: before), ex, after, exa.
      repeat split; [|done|done]. constructor; [by exists a|done].
Qed.

Lemma id_absent_not_in (objs : gmap addr Advert) (id : string) (issue : list addr) :
  id_absent objs id issue → Some id ∉ id_of objs <$> issue.
Proof.
  intros Habs (x & Hx & Hin)%list_elem_of_fmap.
  unfold id_absent in Habs. rewrite Forall_forall in Habs.
  destruct (Habs x Hin) as (a & Ha & Hne).
  unfold id_of in Hx. rewrite Ha in Hx. simpl in Hx. congruence.
Qed.

Lemma cancel_advert_absent (w : World) (self : addr) (id : string)
    (me : MarketingDeptStaff) :
  marketing_objs w !! self = Some me →
  adverts me !! id = None →
  cancel_advert self id w = Some (Raise not_found, w).
Proof.
  intros Hme Ha. unfold cancel_advert.
  step ltac:(by apply get_marketing_ok).
  by rewrite Ha.
Qed.

Lemma remove_advert_from_issue_missing
    (w : World) (self : addr) (id issue_date : string) (ed : Editor) :
  editor_objs w !! self = Some ed →
  magazine_issues ed !! issue_date = None →
  remove_advert_from_issue self id issue_date w = Some (Raise issue_missing, w).
Proof.
  intros Hed Hissue. unfold remove_advert_from_issue.
  step ltac:(by apply get_editor_ok).
  by rewrite Hissue.
Qed.

(** Every command completes on a well-formed world in which its references
    exist, and leaves a well-formed world that evolved from the old one. *)
Lemma execute_sound (c : Command) (w : World) :
  wf w → command_live w c →
  ∃ r w', execute c w = Some (r, w') ∧ wf w' ∧ evolves w w'.
Proof.
  intros Hwf Hlive. destruct c as
    [m id client sz pl dt|m id sz pl dt|m id|e a issue_date|e id issue_date|p a];
    simpl in Hlive; simpl.
  - (* create *)
    destruct Hlive as [me Hme].
    destruct (create_advert_cases w m me id client sz pl dt Hme)
      as [[_ [err Hraise]]|[_ Hok]].
    + exists (Raise err), w. rewrite (bind_raise _ _ _ _ _ Hraise).
      split; [done|]. split; [done|apply evolves_refl].
    + eexists _, _. rewrite (bind_ok _ _ _ _ _ Hok). split; [reflexivity|].
      assert (advert_objs w !! fresh (dom (advert_objs w)) = None) as Hfresh
        by apply not_elem_of_dom, is_fresh.
      split.
      * unfold created. apply wf_marketing_insert; [by apply wf_new_advert|done|].
        unfold id_of. simpl. by rewrite lookup_insert_eq.
      * eapply evolves_trans; [by apply evolves_new_advert|].
        by apply evolves_marketing with (me := me).
  - (* update *)
    destruct Hlive as [me Hme].
    destruct (adverts me !! id) as [a|] eqn:Ha.
    + pose proof (wf_marketing w Hwf m me id a Hme Ha) as Hid.
      unfold id_of in Hid. destruct (advert_objs w !! a) as [adv|] eqn:Hadv; [|done].
      eexists _, _.
      rewrite (bind_ok _ _ _ _ _
                 (update_advert_present w m a id sz pl dt me adv Hme Ha Hadv)).
      split; [reflexivity|]. split.
      * by apply wf_modify_advert with (adv := adv).
      * by apply evolves_modify_advert with (adv := adv).
    + eexists _, _.
      rewrite (bind_raise _ _ _ _ _ (update_advert_absent w m id sz pl dt me Hme Ha)).
      split; [reflexivity|]. split; [done|apply evolves_refl].
  - (* cancel *)
    destruct Hlive as [me Hme].
    destruct (adverts me !! id) as [a|] eqn:Ha.
    + pose proof (wf_marketing w Hwf m me id a Hme Ha) as Hid.
      unfold id_of in Hid. destruct (advert_objs w !! a) as [adv|] eqn:Hadv; [|done].
      eexists _, _.
      rewrite (bind_ok _ _ _ _ _ (cancel_advert_present w m a id me adv Hme Ha Hadv)).
      split; [reflexivity|]. split.
      * by apply wf_modify_advert with (adv := adv).
      * by apply evolves_modify_advert with (adv := adv).
    + eexists _, _.
      rewrite (bind_raise _ _ _ _ _ (cancel_advert_absent w m id me Hme Ha)).
      split; [reflexivity|]. split; [done|apply evolves_refl].
  - (* place or update in an issue *)
    destruct Hlive as [[ed Hed] [adv Hadv]].
    destruct (decide (status adv = "Cancelled")) as [Hst|Hst].
    { eexists _, _.
      rewrite (bind_raise _ _ _ _ _
                 (update_advert_in_issue_guard w e a issue_date adv Hadv Hst)).
      split; [reflexivity|]. split; [done|apply evolves_refl]. }
    assert (Forall (live (advert_objs w)) (issue_of ed issue_date)
            ∧ NoDup (id_of (advert_objs w) <$> issue_of ed issue_date)) as [Hl Hnd].
    { unfold issue_of. destruct (magazine_issues ed !! issue_date) as [issue|] eqn:Hi.
      - by apply (wf_issues w Hwf e ed issue_date issue).
      - split; constructor. }
    destruct (find_by_id_cases (advert_objs w) (advert_id adv) _ Hl)
      as [Habs|(before & ex & after & exa & Hissue & Hb & Hex & Hid)].
    + eexists _, _.
      erewrite bind_ok; last first.
      { apply update_advert_in_issue_append with (ed := ed); try done.
        by apply find_by_id_absent. }
      erewrite bind_ok; last first.
      { apply get_advert_ok. simpl. apply lookup_insert_eq. }
      split; [reflexivity|]. split.
      * unfold appended. apply wf_with_stdout.
        apply wf_modify_advert with (adv := adv); [|done|done].
        apply wf_set_issue; [done|done| |].
        -- apply Forall_app. split; [done|]. apply Forall_singleton. by exists adv.
        -- rewrite fmap_app. apply NoDup_app. split; [done|]. split.
           ++ intros x Hx Hin. simpl in Hin. apply list_elem_of_singleton in Hin.
              subst x. unfold id_of in Hx at 1. rewrite Hadv in Hx. simpl in Hx.
              by apply id_absent_not_in in Habs.
           ++ apply NoDup_singleton.
      * unfold appended.
        apply evolves_trans with
          (w2 := with_editor_objs
                   (<[e := set_issue issue_date (issue_of ed issue_date ++ [a])%list ed]>)
                   w);
          [by apply (evolves_editor w e ed)|].
        eapply evolves_trans; [|apply evolves_stdout].
        by apply evolves_modify_advert with (adv := adv).
    + assert (∃ adv', advert_objs
                (merged_into ex issue_date adv exa ed w) !! a = Some adv')
        as [adv' Hadv'].
      { simpl. destruct (decide (a = ex)) as [->|Hne].
        - rewrite lookup_insert_eq. by eexists.
        - rewrite lookup_insert_ne by done. by eexists. }
      eexists _, _.
      erewrite bind_ok; last first.
      { apply update_advert_in_issue_merge with (ed := ed) (exa := exa); try done.
        rewrite Hissue. by apply find_by_id_first with (exa := exa). }
      erewrite bind_ok; last by apply get_advert_ok.
      split; [reflexivity|]. split.
      * unfold merged_into. apply wf_with_stdout.
        by apply wf_modify_advert with (adv := exa).
      * unfold merged_into.
        eapply evolves_trans; [|apply evolves_stdout].
        by apply evolves_modify_advert with (adv := exa).
  - (* remove from an issue *)
    destruct Hlive as [ed Hed].
    destruct (magazine_issues ed !! issue_date) as [issue|] eqn:Hissue.
    + destruct (wf_issues w Hwf e ed issue_date issue Hed Hissue) as [Hl Hnd].
      eexists _, _.
      erewrite bind_ok; last by apply remove_advert_from_issue_ok.
      split; [reflexivity|]. split.
      * apply wf_set_issue; [done|done|by apply Forall_others|].
        unfold others. by apply NoDup_fmap_filter.
      * by apply (evolves_editor w e ed).
    + eexists _, _.
      erewrite bind_raise;
        last by apply remove_advert_from_issue_missing with (ed := ed).
      split; [reflexivity|]. split; [done|apply evolves_refl].
  - (* store *)
    destruct Hlive as [[pc Hpc] [adv Hadv]].
    destruct (decide (status adv = "Approved")) as [Hst|Hst].
    + eexists _, _.
      erewrite bind_ok; last by apply store_advert_ok.
      erewrite bind_ok; last by apply get_advert_ok.
      split; [reflexivity|]. split.
      * unfold stored. apply wf_with_stdout. apply wf_store; [done|done|by exists adv].
      * unfold stored. eapply evolves_trans; [|apply evolves_stdout].
        by apply (evolves_processing w p pc).
    + eexists _, _.
      erewrite bind_raise; last by apply store_advert_refused with (adv := adv).
      split; [reflexivity|]. split; [done|apply evolves_refl].
Qed.

Lemma run_queue_sound (queue : list Command) (acc : list PyResult) (w : World) :
  wf w → Forall (command_live w) queue →
  ∃ r inv' w', run_queue queue acc w = Some (r, inv', w') ∧ wf w' ∧ evolves w w'.
Proof.
  revert acc w. induction queue as [|c queue IH]; intros acc w Hwf Hlive; simpl.
  - eexists _, _, _. split; [reflexivity|]. split; [done|apply evolves_refl].
  - apply Forall_cons in Hlive as [Hc Hrest].
    destruct (execute_sound c w Hwf Hc) as ([res|e] & w1 & Hrun & Hwf1 & Hev1);
      rewrite Hrun.
    + destruct (IH (acc ++ [res])%list w1 Hwf1) as (r & inv' & w' & Hq & Hwf' & Hev').
      { eapply Forall_impl; [exact Hrest|]. intros x. by apply command_live_evolves. }
      exists r, inv', w'. split; [done|]. split; [done|by eapply evolves_trans].
    + by eexists _, _, _.
Qed.

Lemma execute_commands_sound (queue : list Command) (w : World) :
  wf w → Forall (command_live w) queue →
  ∃ r inv' w',
    execute_commands (mkInvoker queue) w = Some (r, inv', w') ∧ wf w' ∧ evolves w w'.
Proof.
  intros Hwf Hlive. unfold execute_commands. simpl.
  destruct queue as [|c queue].
  - eexists _, _, _. split; [reflexivity|].
    split; [by apply wf_with_stdout|apply evolves_stdout].
  - by apply run_queue_sound.
Qed.

Lemma wf_fresh_world : wf fresh_world.
Proof.
  constructor; unfold fresh_world; simpl.
  - intros self me id a [_ <-]%lookup_singleton_Some. simpl.
    by rewrite lookup_empty.
  - intros self ed issue_date issue [_ <-]%lookup_singleton_Some. simpl.
    by rewrite lookup_empty.
  - intros self p [_ <-]%lookup_singleton_Some. constructor.
Qed.

Lemma wf_example_world (status : string) : wf (example_world status [1%positive]).
Proof.
  constructor; unfold example_world; simpl.
  - intros self me id a [_ <-]%lookup_singleton_Some. simpl.
    by intros [<- <-]%lookup_singleton_Some.
  - intros self ed issue_date issue [_ <-]%lookup_singleton_Some. simpl.
    intros [_ <-]%lookup_singleton_Some. split.
    + apply Forall_singleton. by eexists.
    + apply NoDup_singleton.
  - intros self p [_ <-]%lookup_singleton_Some. constructor.
Qed.

(** X19. Commands keep the stores consistent with the adverts: on a world
    where every marketing store keeps each advert under the advert's own id,
    the adverts of an issue have pairwise different ids and every reference
    is to an existing advert, a command whose receiver and advert exist
    completes (it returns or raises) and the world it leaves has those
    properties again. *)
Theorem execute_keeps_wf (c : Command) (w : World) :
  wf w → command_live w c →
  ∃ r w', execute c w = Some (r, w') ∧ wf w'.
Proof.
  intros Hwf Hlive.
  destruct (execute_sound c w Hwf Hlive) as (r & w' & Hrun & Hwf' & _). eauto.
Qed.

Lemma execute_keeps_wf_witness :
  ∃ r w', execute create_AD001 fresh_world = Some (r, w') ∧ wf w'.
Proof.
  apply (execute_keeps_wf create_AD001 fresh_world wf_fresh_world).
  simpl. by eexists.
Defined.

(** X20. No command rewrites identities: whatever a command does, every
    advert keeps its id and its client name and stays cancelled if it was
    cancelled, every member of staff keeps id, salary and department, and the
    registry of staff ids is not touched. *)
Theorem execute_evolves (c : Command) (w w' : World) (r : Result PyResult) :
  wf w → command_live w c →
  execute c w = Some (r, w') →
  evolves w w'.
Proof.
  intros Hwf Hlive Hrun.
  destruct (execute_sound c w Hwf Hlive) as (r1 & w1 & Hrun1 & _ & Hev).
  rewrite Hrun in Hrun1. by injection Hrun1 as -> ->.
Qed.

Lemma execute_evolves_witness :
  evolves (example_world "Approved" [1%positive])
          (example_world "Cancelled" [1%positive]).
Proof.
  apply (execute_evolves (CancelAdvertCommand 1 "AD001")
           (example_world "Approved" [1%positive]) _
           (Ok (RStr (cancelled_ok "AD001"))) (wf_example_world "Approved")).
  - simpl. by eexists.
  - reflexivity.
Defined.



(** X22. A cancellation is final: whatever queue of commands runs afterwards,
    a cancelled advert is still refused by every editor and by every
    processing centre. *)
Theorem cancelled_is_final
    (queue : list Command) (w : World) (a : addr) (adv : Advert) :
  wf w → Forall (command_live w) queue →
  advert_objs w !! a = Some adv →
  status adv = "Cancelled" →
  ∃ r inv' w',
    execute_commands (enqueue_all queue) w = Some (r, inv', w')
    ∧ (∀ editor issue_date,
         update_advert_in_issue editor a issue_date w' = Some (Raise cancelled_msg, w'))
    ∧ (∀ processing_centre,
         store_advert processing_centre a w' = Some (Raise not_approved, w')).
Proof.
  intros Hwf Hlive Hadv Hst.
  destruct (execute_commands_sound queue w Hwf Hlive)
    as (r & inv' & w' & Hrun & _ & (Ha & _)).
  destruct (Ha a adv Hadv) as (adv' & Hadv' & _ & _ & Hst').
  exists r, inv', w'. split.
  { unfold execute_commands in *. by rewrite command_queue_enqueue_all. }
  split.
  - intros editor issue_date. by apply update_advert_in_issue_guard with (adv := adv'); auto.
  - intros pc. apply store_advert_refused with (adv := adv'); [done|].
    rewrite (Hst' Hst). discriminate.
Qed.

Lemma cancelled_is_final_witness :
  ∃ r inv' w',
    execute_commands
      (enqueue_all [UpdateAdvertCommand 1 "AD001" (Some "Half Page") None None;
                    RemoveAdvertFromIssueCommand 1 "AD001" "2025-03-01"])
      (example_world "Cancelled" [1%positive])
    = Some (r, inv', w')
    ∧ (∀ editor issue_date,
         update_advert_in_issue editor 1 issue_date w' = Some (Raise cancelled_msg, w'))
    ∧ (∀ processing_centre,
         store_advert processing_centre 1 w' = Some (Raise not_approved, w')).
Proof.
  apply (cancelled_is_final _ (example_world "Cancelled" [1%positive]) 1
           (AD001 "Cancelled") (wf_example_world "Cancelled")).
  - repeat constructor; simpl; by eexists.
  - reflexivity.
  - reflexivity.
Defined.

(** ** The further properties at concrete inputs *)

Lemma AD001_accepted :
  ¬ create_rejects (mkMarketing (mkStaff 100000 50000 "Marketing") ∅)
      "AD001" "Client A" "Full Page" "Back Cover" "2025-01-15".
Proof.
  intros [H|[H|[H|[H|[H|[x H]]]]]]; try discriminate H.
  apply H. unfold valid_sizes. apply list_elem_of_here.
Qed.

Lemma remove_advert_from_issue_unknown_date_witness :
  remove_advert_from_issue 1 "AD001" "2099-01-01" (example_world "Approved" [1%positive])
  = Some (Raise issue_missing, example_world "Approved" [1%positive]).
Proof.
  exact (remove_advert_from_issue_unknown_date
           (example_world "Approved" [1%positive]) 1 "AD001" "2099-01-01"
           (mkEditor (mkStaff 200000 60000 "Editing") {["2025-03-01" := [1%positive]]})
           eq_refl eq_refl).
Defined.

Lemma remove_advert_from_issue_known_witness :
  ∃ w' ed',
    remove_advert_from_issue 1 "AD001" "2025-03-01"
      (example_world "Approved" [1%positive]) = Some (Ok (), w')
    ∧ editor_objs w' !! 1%positive = Some ed'
    ∧ magazine_issues ed' !! "2025-03-01" = Some []
    ∧ advert_objs w' !! 1%positive = Some (AD001 "Approved").
Proof.
  destruct (remove_advert_from_issue_known
              (example_world "Approved" [1%positive]) 1 "AD001" "2025-03-01"
              (mkEditor (mkStaff 200000 60000 "Editing")
                        {["2025-03-01" := [1%positive]]})
              [1%positive] eq_refl eq_refl)
    as (w' & ed' & Hrun & Hed & Hissue & _ & _ & Hobjs & _).
  - apply Forall_singleton. by eexists.
  - exists w', ed'. split; [exact Hrun|]. split; [exact Hed|].
    split; [exact Hissue|]. by rewrite Hobjs.
Defined.

Lemma remove_advert_from_issue_absent_id_witness :
  remove_advert_from_issue 1 "AD999" "2025-03-01" (example_world "Approved" [1%positive])
  = Some (Ok (), example_world "Approved" [1%positive]).
Proof.
  apply (remove_advert_from_issue_absent_id
           (example_world "Approved" [1%positive]) 1 "AD999" "2025-03-01"
           (mkEditor (mkStaff 200000 60000 "Editing") {["2025-03-01" := [1%positive]]})
           [1%positive] eq_refl eq_refl).
  apply Forall_singleton. eexists. split; [reflexivity|discriminate].
Defined.

Lemma place_then_remove_witness :
  ∃ w1 w2 ed2,
    update_advert_in_issue 1 1 "2025-03-01" (example_world "Pending" []) = Some (Ok (), w1)
    ∧ remove_advert_from_issue 1 "AD001" "2025-03-01" w1 = Some (Ok (), w2)
    ∧ editor_objs w2 !! 1%positive = Some ed2
    ∧ magazine_issues ed2 !! "2025-03-01" = Some []
    ∧ advert_objs w2 !! 1%positive = Some (AD001 "Approved").
Proof.
  exact (place_then_remove (example_world "Pending" []) 1 1 "2025-03-01"
           (AD001 "Pending")
           (mkEditor (mkStaff 200000 60000 "Editing") {["2025-03-01" := []]})
           eq_refl ltac:(discriminate) eq_refl (List.Forall_nil _)).
Defined.

Lemma cancel_then_place_queue_witness :
  execute_commands
    (enqueue_all [CancelAdvertCommand 1 "AD001";
                  UpdateAdvertInIssueCommand 1 1 "2025-03-01"])
    (example_world "Approved" [])
  = Some (Raise cancelled_msg, mkInvoker [], example_world "Cancelled" []).
Proof.
  exact (cancel_then_place_queue (example_world "Approved" []) 1 1 1 "AD001"
           "2025-03-01"
           (mkMarketing (mkStaff 100000 50000 "Marketing") {["AD001" := 1%positive]})
           (AD001 "Approved") eq_refl eq_refl eq_refl).
Defined.

Lemma created_advert_not_storable_witness :
  ∃ a w1,
    create_advert 1 "AD001" "Client A" "Full Page" "Back Cover" "2025-01-15" fresh_world
    = Some (Ok a, w1)
    ∧ store_advert 1 a w1 = Some (Raise not_approved, w1).
Proof.
  exact (created_advert_not_storable fresh_world 1 1
           (mkMarketing (mkStaff 100000 50000 "Marketing") ∅)
           "AD001" "Client A" "Full Page" "Back Cover" "2025-01-15"
           eq_refl AD001_accepted).
Defined.

Lemma placed_advert_storable_witness :
  ∃ w1 w2 p2,
    update_advert_in_issue 1 1 "2025-03-01" (example_world "Pending" []) = Some (Ok (), w1)
    ∧ store_advert 1 1 w1 = Some (Ok (), w2)
    ∧ processing_objs w2 !! 1%positive = Some p2
    ∧ stored_adverts p2 = [1%positive].
Proof.
  exact (placed_advert_storable (example_world "Pending" []) 1 1 1 "2025-03-01"
           (AD001 "Pending")
           (mkEditor (mkStaff 200000 60000 "Editing") {["2025-03-01" := []]})
           (mkProcessing (mkStaff 300000 55000 "Processing Centre") [])
           eq_refl ltac:(discriminate) eq_refl (List.Forall_nil _) eq_refl).
Defined.

Lemma stored_advert_can_be_cancelled_witness :
  ∃ w1 w2 p2,
    store_advert 1 1 (example_world "Approved" []) = Some (Ok (), w1)
    ∧ cancel_advert 1 "AD001" w1 = Some (Ok (cancelled_ok "AD001"), w2)
    ∧ processing_objs w2 !! 1%positive = Some p2
    ∧ 1%positive ∈ stored_adverts p2
    ∧ status <$> advert_objs w2 !! 1%positive = Some "Cancelled".
Proof.
  exact (stored_advert_can_be_cancelled (example_world "Approved" []) 1 1 1 "AD001"
           (mkMarketing (mkStaff 100000 50000 "Marketing") {["AD001" := 1%positive]})
           (AD001 "Approved")
           (mkProcessing (mkStaff 300000 55000 "Processing Centre") [])
           eq_refl eq_refl eq_refl eq_refl eq_refl).
Defined.

Lemma place_twice_witness :
  ∃ w1 w2 ed2,
    update_advert_in_issue 1 1 "2025-03-01" (example_world "Pending" []) = Some (Ok (), w1)
    ∧ update_advert_in_issue 1 1 "2025-03-01" w1 = Some (Ok (), w2)
    ∧ editor_objs w2 = editor_objs w1
    ∧ advert_objs w2 = advert_objs w1
    ∧ editor_objs w2 !! 1%positive = Some ed2
    ∧ issue_of ed2 "2025-03-01" = [1%positive].
Proof.
  exact (place_twice (example_world "Pending" []) 1 1 "2025-03-01"
           (AD001 "Pending")
           (mkEditor (mkStaff 200000 60000 "Editing") {["2025-03-01" := []]})
           eq_refl ltac:(discriminate) eq_refl (List.Forall_nil _)).
Defined.

Lemma create_advert_twice_witness :
  ∃ a w1,
    create_advert 1 "AD001" "Client A" "Full Page" "Back Cover" "2025-01-15" fresh_world
    = Some (Ok a, w1)
    ∧ ∀ client' size' placement' date',
        ∃ e, create_advert 1 "AD001" client' size' placement' date' w1
             = Some (Raise e, w1).
Proof.
  exact (create_advert_twice fresh_world 1
           (mkMarketing (mkStaff 100000 50000 "Marketing") ∅)
           "AD001" "Client A" "Full Page" "Back Cover" "2025-01-15"
           eq_refl AD001_accepted).
Defined.

Lemma create_then_update_witness :
  ∃ a w1 w2,
    create_advert 1 "AD001" "Client A" "Full Page" "Back Cover" "2025-01-15" fresh_world
    = Some (Ok a, w1)
    ∧ update_advert 1 "AD001" (Some "Half Page") (Some "Front Cover") None w1
      = Some (Ok (updated_ok "AD001"), w2)
    ∧ advert_objs w2 !! a
      = Some (mkAdvert "AD001" "Client A" "Half Page" "Front Cover" "2025-01-15"
                       "Pending").
Proof.
  exact (create_then_update fresh_world 1
           (mkMarketing (mkStaff 100000 50000 "Marketing") ∅)
           "AD001" "Client A" "Full Page" "Back Cover" "2025-01-15"
           (Some "Half Page") (Some "Front Cover") None
           eq_refl AD001_accepted).
Defined.

Lemma update_advert_idempotent_witness :
  ∃ w1,
    update_advert 1 "AD001" (Some "Half Page") None None (example_world "Pending" [])
    = Some (Ok (updated_ok "AD001"), w1)
    ∧ update_advert 1 "AD001" (Some "Half Page") None None w1
      = Some (Ok (updated_ok "AD001"), w1).
Proof.
  exact (update_advert_idempotent (example_world "Pending" []) 1 1 "AD001"
           (Some "Half Page") None None
           (mkMarketing (mkStaff 100000 50000 "Marketing") {["AD001" := 1%positive]})
           (AD001 "Pending") eq_refl eq_refl eq_refl).
Defined.

Lemma cancel_then_update_witness :
  ∃ w1 w2,
    cancel_advert 1 "AD001" (example_world "Approved" [])
    = Some (Ok (cancelled_ok "AD001"), w1)
    ∧ update_advert 1 "AD001" None (Some "Front Cover") None w1
      = Some (Ok (updated_ok "AD001"), w2)
    ∧ advert_objs w2 !! 1%positive
      = Some (mkAdvert "AD001" "Client A" "Full Page" "Front Cover" "2025-01-15"
                       "Cancelled").
Proof.
  exact (cancel_then_update (example_world "Approved" []) 1 1 "AD001"
           None (Some "Front Cover") None
           (mkMarketing (mkStaff 100000 50000 "Marketing") {["AD001" := 1%positive]})
           (AD001 "Approved") eq_refl eq_refl eq_refl).
Defined.

(** ** Staff: unique ids, untouched by commands *)





Lemma same_staff_refl (w : World) : same_staff w w.
Proof. by split. Qed.

Lemma same_staff_trans (w1 w2 w3 : World) :
  same_staff w1 w2 → same_staff w2 w3 → same_staff w1 w3.
Proof.
  intros [Hu Hb] [Hu' Hb']. split; [congruence|].
  intros ref. by rewrite Hb', Hb.
Qed.

Lemma keeps_staff_bind {A B} (m : M A) (k : A → M B) :
  keeps_staff m → (∀ a, keeps_staff (k a)) → keeps_staff (m ≫= k).
Proof.
  intros Hm Hk w r w'. unfold mbind, M_bind.
  destruct (m w) as [[[a|e] w1]|] eqn:Hrun; [| |done].
  - intros Hrest. eapply same_staff_trans; [by eapply Hm|by eapply Hk].
  - intros [= <- <-]. by eapply Hm.
Qed.

Lemma keeps_staff_ret {A} (a : A) : keeps_staff (mret a).
Proof. intros w r w' [= <- <-]. apply same_staff_refl. Qed.

Lemma keeps_staff_raise {A} (e : exn) : keeps_staff (@raise A e).
Proof. intros w r w' [= <- <-]. apply same_staff_refl. Qed.

Lemma keeps_staff_print (line : string) : keeps_staff (print line).
Proof. intros w r w' [= <- <-]. by split. Qed.

Lemma keeps_staff_get_advert (a : addr) : keeps_staff (get_advert a).
Proof.
  intros w r w'. unfold get_advert. destruct (advert_objs w !! a); simpl; [|done].
  intros [= <- <-]. apply same_staff_refl.
Qed.

Lemma keeps_staff_get_marketing (a : addr) : keeps_staff (get_marketing a).
Proof.
  intros w r w'. unfold get_marketing. destruct (marketing_objs w !! a); simpl; [|done].
  intros [= <- <-]. apply same_staff_refl.
Qed.

Lemma keeps_staff_get_editor (a : addr) : keeps_staff (get_editor a).
Proof.
  intros w r w'. unfold get_editor. destruct (editor_objs w !! a); simpl; [|done].
  intros [= <- <-]. apply same_staff_refl.
Qed.

Lemma keeps_staff_modify_advert (a : addr) (f : Advert → Advert) :
  keeps_staff (modify_advert a f).
Proof.
  intros w r w'. unfold modify_advert. destruct (advert_objs w !! a); simpl; [|done].
  intros [= <- <-]. by split.
Qed.

Lemma keeps_staff_new_advert (v : Advert) : keeps_staff (new_advert v).
Proof. intros w r w' [= <- <-]. by split. Qed.

Lemma keeps_staff_next_by_id (id : string) (issue : list addr) :
  keeps_staff (next_by_id id issue).
Proof.
  intros w r w'. unfold next_by_id.
  destruct (find_by_id (advert_objs w) id issue); simpl; [|done].
  intros [= <- <-]. apply same_staff_refl.
Qed.

Lemma keeps_staff_without_id (id : string) (issue : list addr) :
  keeps_staff (without_id id issue).
Proof.
  intros w r w'. unfold without_id.
  destruct (filter_out_id (advert_objs w) id issue); simpl; [|done].
  intros [= <- <-]. apply same_staff_refl.
Qed.




Lemma keeps_staff_when_truthy (arg : option string) (k : string → M unit) :
  (∀ v, keeps_staff (k v)) → keeps_staff (when_truthy arg k).
Proof.
  intros Hk. unfold when_truthy. destruct arg as [v|]; [|apply keeps_staff_ret].
  destruct (truthy v); [apply Hk|apply keeps_staff_ret].
Qed.

Lemma keeps_staff_update_details (self : addr) (s p d : option string) :
  keeps_staff (Advert_update_details self s p d).
Proof.
  unfold Advert_update_details.
  repeat (apply keeps_staff_bind; [|intros _]);
    apply keeps_staff_when_truthy; intros v; apply keeps_staff_modify_advert.
Qed.

Create HintDb keeps_staff.
#[export] Hint Resolve keeps_staff_ret keeps_staff_raise keeps_staff_print
  keeps_staff_get_advert keeps_staff_get_marketing keeps_staff_get_editor
  keeps_staff_modify_advert keeps_staff_new_advert keeps_staff_next_by_id
  keeps_staff_without_id keeps_staff_update_details : keeps_staff.






(** ** Which padded dates [create_advert] accepts *)

Lemma digit_digit_char (n : Z) :
  (0 ≤ n ≤ 9)%Z → Strptime.digit (digit_char n) = Some n.
Proof.
  intros Hn.
  assert (n = 0 ∨ n = 1 ∨ n = 2 ∨ n = 3 ∨ n = 4 ∨ n = 5 ∨ n = 6 ∨ n = 7
          ∨ n = 8 ∨ n = 9)%Z as Hcases by lia.
  repeat (destruct Hcases as [->|Hcases]; [reflexivity|]). by subst.
Qed.

Lemma cls_digit_char (n : Z) (rest : string) :
  (0 ≤ n ≤ 9)%Z →
  Strptime.cls 0 9 (String (digit_char n) rest) = Some (n, rest).
Proof.
  intros Hn. unfold Strptime.cls. rewrite digit_digit_char by done. simpl.
  by rewrite bool_decide_eq_true_2.
Qed.

Lemma year_pad4 (y : Z) (rest : string) :
  (0 ≤ y ≤ 9999)%Z → Strptime.year (pad4 y +:+ rest) = Some (y, rest).
Proof.
  intros Hy. unfold Strptime.year.
  change (pad4 y +:+ rest) with
    (String (digit_char (y `div` 1000))
       (String (digit_char ((y `div` 100) `mod` 10))
          (String (digit_char ((y `div` 10) `mod` 10))
             (String (digit_char (y `mod` 10)) rest)))).
  rewrite cls_digit_char by (Z.to_euclidean_division_equations; lia).
  cbn -[Strptime.cls digit_char Z.div Z.modulo Z.mul Z.add].
  rewrite cls_digit_char by (Z.to_euclidean_division_equations; lia).
  cbn -[Strptime.cls digit_char Z.div Z.modulo Z.mul Z.add].
  rewrite cls_digit_char by (Z.to_euclidean_division_equations; lia).
  cbn -[Strptime.cls digit_char Z.div Z.modulo Z.mul Z.add].
  rewrite cls_digit_char by (Z.to_euclidean_division_equations; lia).
  cbn -[Strptime.cls digit_char Z.div Z.modulo Z.mul Z.add].
  do 2 f_equal. Z.to_euclidean_division_equations. lia.
Qed.

(** The hundred by hundred padded texts, read one by one. *)
Lemma month_day_table :
  forallb (λ m, forallb (month_day_agrees m) (seqZ 0 100)) (seqZ 0 100) = true.
Proof. vm_compute. reflexivity. Qed.

Lemma month_day_padded (m d : Z) :
  (0 ≤ m ≤ 99)%Z → (0 ≤ d ≤ 99)%Z →
  month_day (month_day_text m d) = month_day_expected m d.
Proof.
  intros Hm Hd. pose proof month_day_table as Htable.
  rewrite forallb_forall in Htable.
  assert (In m (seqZ 0 100)) as Hin_m by (apply list_elem_of_In, elem_of_seqZ; lia).
  specialize (Htable m Hin_m). rewrite forallb_forall in Htable.
  assert (In d (seqZ 0 100)) as Hin_d by (apply list_elem_of_In, elem_of_seqZ; lia).
  specialize (Htable d Hin_d). by apply bool_decide_eq_true in Htable.
Qed.

Lemma strptime_via_month_day (y : Z) (t : string) :
  Strptime.strptime_Ymd (pad4 y +:+ "-" +:+ t)
  = (if bool_decide (0 ≤ y ≤ 9999)%Z then
       '(m, d) ← month_day t;
       if bool_decide (1 ≤ y)%Z && bool_decide (1 ≤ d ≤ Strptime.days_in_month y m)%Z
       then Some (y, m, d) else None
     else Strptime.strptime_Ymd (pad4 y +:+ "-" +:+ t)).
Proof.
  case_bool_decide as Hy; [|done].
  unfold Strptime.strptime_Ymd. rewrite year_pad4 by done.
  change ("-" +:+ t) with (String "-"%char t).
  cbn [mbind option_bind Strptime.lit].
  rewrite (bool_decide_eq_true_2 ("-"%char = "-"%char)) by done.
  cbn [mbind option_bind].
  unfold month_day.
  destruct (Strptime.month_then _ t) as [[m [d s]]|]; cbn [mbind option_bind]; [|done].
  by destruct (truthy s).
Qed.

(** X25. For a publication date written YYYY-MM-DD with a four-digit year
    and two-digit month and day, [_is_valid_date] answers [True] exactly
    when the year is at least 1, the month is 1..12 and the day exists in
    that month of that year (29 February in leap years only). *)
Theorem is_valid_date_iso (y m d : Z) :
  (0 ≤ y ≤ 9999)%Z → (0 ≤ m ≤ 99)%Z → (0 ≤ d ≤ 99)%Z →
  _is_valid_date (iso_date y m d) = true
  ↔ (1 ≤ y ∧ 1 ≤ m ≤ 12 ∧ 1 ≤ d ≤ Strptime.days_in_month y m)%Z.
Proof.
  intros Hy Hm Hd. unfold _is_valid_date, iso_date.
  rewrite bool_decide_eq_true, strptime_via_month_day.
  rewrite bool_decide_eq_true_2 by done.
  rewrite month_day_padded by done. unfold month_day_expected.
  assert (Strptime.days_in_month y m ≤ 31)%Z as Hdim.
  { unfold Strptime.days_in_month. repeat case_match; lia. }
  repeat (case_bool_decide; cbn [mbind option_bind andb]);
    (split; [intros Hsome; first [lia|by destruct Hsome]
            |intros Hcal; first [by eexists|exfalso; lia]]).
Qed.

Lemma is_valid_date_iso_witness :
  _is_valid_date (iso_date 2024 2 29) = true
  ↔ (1 ≤ 2024 ∧ 1 ≤ 2 ≤ 12 ∧ 1 ≤ 29 ≤ Strptime.days_in_month 2024 2)%Z.
Proof. apply (is_valid_date_iso 2024 2 29); lia. Defined.

(** * The date check of [create_advert], spelled out *)

























